(** * Map components of the navigator app: a shallow embedding

  The development follows the three source files of the repository:

  - [TrackingMarker]  (src/components/TrackingMarker.tsx): the animated
    marker with its imperative [move] and [rotate] handles;
  - [PlaceMapView] and [LiveOrderRoute]: the two map components with
    their zoom transform, the directions request, the route end points
    and the camera fitting;
  - [EditLocationCoordScreen]: the screen on which a coordinate is picked
    by dragging the map.

  Coordinates, zoom levels and durations are modelled as exact rationals
  ([Q]): the components compare them, take their minimum and maximum and
  subtract a zoom from a constant, and never round them in between.  The
  values a JavaScript number can take beyond the rationals ([NaN], the
  infinities) appear where the code produces them, in [Math.max] and
  [Math.min].  The rotation of the marker adds and subtracts angles and
  takes a remainder; it is modelled on binary64 doubles ([MarkerRotation]),
  where these operations round as they do in JavaScript. *)

From Stdlib Require Import QArith Qabs Lqa ZArith List String Ascii Bool Lia.
From Stdlib Require Import Permutation.
From Stdlib Require PrimFloat SpecFloat FloatOps FloatAxioms Uint63.
Import ListNotations.

Local Open Scope Q_scope.
Set Warnings "-register-all,-inexact-float".

(** ** JavaScript arithmetic on finite numbers *)

Module JsNumber.

(** [x > y] and [x < y] as boolean tests. *)
Definition gtb (x y : Q) : bool := negb (Qle_bool x y).
Definition ltb (x y : Q) : bool := negb (Qle_bool y x).

(** [Math.sign]. *)
Definition Math_sign (x : Q) : Q :=
  if gtb x 0 then 1 else if ltb x 0 then - (1) else 0.

(** [Math.abs]. *)
Definition Math_abs (x : Q) : Q := Qabs x.

(** Truncation toward zero of a rational. *)
Definition trunc (x : Q) : Z := Z.quot (Qnum x) (Zpos (Qden x)).

(** [a % b]: the remainder takes the sign of the dividend,
    [a - b * trunc (a / b)].  The divisor is a non-zero constant at every
    use in the components. *)
Definition rem (a b : Q) : Q := a - b * inject_Z (trunc (a / b)).

(** [x || 0] on a number: [0] is the only falsy finite number. *)
Definition or_zero (x : Q) : Q := if Qeq_bool x 0 then 0 else x.

End JsNumber.

(** ** The tracking marker *)

Module TrackingMarker.
Import JsNumber.

Record Coordinate := mkCoordinate { latitude : Q; longitude : Q }.

(** The props the two handles read, with the defaults of the
    destructuring pattern applied. *)
Record Props := mkProps {
  coordinate : Coordinate;
  moveDuration : Q;
  initialRotation : Q;
  baseRotation : Q;
  rotationDuration : Q
}.

Definition default_moveDuration : Q := 1000.
Definition default_rotationDuration : Q := 500.

(** Component state: the two [useState] cells and the [Animated.Value]
    held in the ref ([rotation._value]). *)
Record State := mkState {
  svgLoading : bool;
  currentCoordinate : Coordinate;
  rotation_value : Q;
  rotationDeg : Q
}.

Definition initial (p : Props) : State :=
  {| svgLoading := true;
     currentCoordinate :=
       {| latitude := latitude (coordinate p);
          longitude := longitude (coordinate p) |};
     rotation_value := initialRotation p;
     rotationDeg := initialRotation p |}.

Inductive Easing := Linear.

(** The configuration handed to [Animated.timing]. *)
Record TimingConfig := mkTiming {
  toValue : Q;
  duration : Q;
  easing : Easing;
  useNativeDriver : bool
}.

(** What a handle asks of React and of the animation primitive. *)
Inductive Effect :=
| SetCurrentCoordinate (c : Coordinate)
| AnimatedTimingStart (cfg : TimingConfig).

(** A default parameter: the argument when it is given, the default
    otherwise. *)
Definition with_default (arg : option Q) (dflt : Q) : Q :=
  match arg with Some d => d | None => dflt end.

(** [move]: one state update and nothing else; the [duration] parameter
    is bound and never read. *)
Definition move (p : Props) (newLatitude newLongitude : Q)
    (duration : option Q) : list Effect :=
  let _duration := with_default duration (moveDuration p) in
  [ SetCurrentCoordinate
      {| latitude := newLatitude; longitude := newLongitude |} ].

(** The wrap step of [rotate] read on exact numbers: the signed delta
    after the step, from a rotation and a heading.  [rotate] itself, on
    doubles, is in [MarkerRotation]. *)
Definition rotate_delta (currentRotation newHeading : Q) : Q :=
  let delta := newHeading - currentRotation in
  if gtb (Math_abs delta) 180
  then delta - 360 * Math_sign delta
  else delta.

(** React applies a state update; a started animation is left to the
    platform and changes nothing at the moment it is started. *)
Definition apply_effect (st : State) (e : Effect) : State :=
  match e with
  | SetCurrentCoordinate c =>
      {| svgLoading := svgLoading st;
         currentCoordinate := c;
         rotation_value := rotation_value st;
         rotationDeg := rotationDeg st |}
  | AnimatedTimingStart _ => st
  end.

Definition apply_effects (st : State) (es : list Effect) : State :=
  fold_left apply_effect es st.

(** The listener of the [useEffect]: each value the animation emits is
    copied into [rotationDeg]. *)
Definition on_rotation_value (st : State) (value : Q) : State :=
  {| svgLoading := svgLoading st;
     currentCoordinate := currentCoordinate st;
     rotation_value := value;
     rotationDeg := value |}.

(** The effect on the [coordinate] prop: when the prop changes, the
    current coordinate follows it. *)
Definition on_coordinate_prop (coordinate : Coordinate) : list Effect :=
  [ SetCurrentCoordinate
      {| latitude := latitude coordinate;
         longitude := longitude coordinate |} ].

(** The coordinate handed to [MarkerView]: longitude first. *)
Definition markerView_coordinate (st : State) : Q * Q :=
  (longitude (currentCoordinate st), latitude (currentCoordinate st)).

End TrackingMarker.

(** ** Doubles *)

Module Double.
Import PrimFloat SpecFloat FloatOps.

(** The exact value of a finite double. *)
Definition to_Q (f : float) : option Q :=
  match Prim2SF f with
  | S754_zero _ => Some 0
  | S754_finite s m e =>
      let n := if s then Zneg m else Zpos m in
      Some (if (0 <=? e)%Z
            then inject_Z (n * 2 ^ e)
            else n # Z.to_pos (2 ^ (- e)))
  | S754_infinity _ | S754_nan => None
  end.

(** A positive number as an odd number times a power of two. *)
Fixpoint odd_part (p : positive) : positive * Z :=
  match p with
  | xO q => let '(m, k) := odd_part q in (m, (k + 1)%Z)
  | _ => (p, 0%Z)
  end.

(** The double of a rational whose denominator is a power of two and
    whose odd part fits the mantissa; [negative] is the sign given to a
    zero. *)
Definition of_Q (negative : bool) (q : Q) : float :=
  let e := (- Z.log2 (Zpos (Qden q)))%Z in
  match Qnum q with
  | Z0 => if negative then neg_zero else zero
  | Zpos p =>
      let '(m, k) := odd_part p in SF2Prim (S754_finite false m (k + e))
  | Zneg p =>
      let '(m, k) := odd_part p in SF2Prim (S754_finite true m (k + e))
  end.

(** [a % b] on doubles.  The remainder of two finite doubles is computed
    exactly, [a - b * trunc (a / b)], and is itself a double; it takes the
    sign of the dividend, also when it is zero.  [NaN] results from a
    [NaN] operand, an infinite dividend or a zero divisor, and an infinite
    divisor leaves the dividend. *)
Definition rem (a b : float) : float :=
  match to_Q a, to_Q b with
  | Some qa, Some qb =>
      if Qeq_bool qb 0 then nan
      else if Qeq_bool qa 0 then a
      else of_Q (get_sign a) (JsNumber.rem qa qb)
  | Some _, None => if is_infinity b then a else nan
  | None, _ => nan
  end.

(** [Math.sign]: 1, -1, or the argument itself when it is a zero or
    [NaN]. *)
Definition Math_sign (x : float) : float :=
  if (0 <? x)%float then 1%float
  else if (x <? 0)%float then (-1)%float
  else x.

(** [Math.abs]. *)
Definition Math_abs (x : float) : float := abs x.

(** [x || 0]: the zeros and [NaN] are falsy. *)
Definition or_zero (x : float) : float :=
  if is_nan x || is_zero x then 0%float else x.

End Double.

(** ** The rotation of the tracking marker *)

Module MarkerRotation.
Import PrimFloat.

(** The configuration handed to [Animated.timing]. *)
Record TimingConfig := mkTiming {
  toValue : float;
  duration : Q;
  easing : TrackingMarker.Easing;
  useNativeDriver : bool
}.

(** The signed delta of [rotate], after the wrap step. *)
Definition rotate_delta (currentRotation newHeading : float) : float :=
  let delta := (newHeading - currentRotation)%float in
  if (180 <? Double.Math_abs delta)%float
  then (delta - 360 * Double.Math_sign delta)%float
  else delta.

Definition finalRotation (currentRotation newHeading : float) : float :=
  Double.rem (currentRotation + rotate_delta currentRotation newHeading)%float
             360%float.


End MarkerRotation.


(** ** JavaScript values, as [JSON.parse] and the network hand them over *)

Module Js.

(** A JavaScript number: a finite value or one of the three others. *)
Inductive num :=
| NaN
| NegInfinity
| Finite (q : Q)
| PosInfinity.

(** The values a parsed JSON document is made of, and [undefined], which
    reading a missing property gives. *)
Inductive value :=
| Undefined
| Null
| Bool (b : bool)
| Number (n : num)
| Str (s : string)
| Array (elems : list value)
| Object (fields : list (string * value)).

Inductive error :=
| TypeError
| FetchRejected
| JsonRejected.

(** The outcome of evaluating an expression or of awaiting a promise. *)
Inductive completion (A : Type) :=
| Normal (a : A)
| Throw (e : error).
Arguments Normal {A} a.
Arguments Throw {A} e.

Definition bind {A B} (c : completion A) (k : A -> completion B)
  : completion B :=
  match c with
  | Normal a => k a
  | Throw e => Throw e
  end.

(** [try { body } catch (error) { handler }]. *)
Definition try_catch {A} (body : completion A) (handler : error -> completion A)
  : completion A :=
  match body with
  | Normal a => Normal a
  | Throw e => handler e
  end.

(** Own property of a parsed object. *)
Fixpoint lookup (key : string) (fields : list (string * value)) : value :=
  match fields with
  | [] => Undefined
  | (k, v) :: rest => if String.eqb k key then v else lookup key rest
  end.

Definition string_head (s : string) : value :=
  match s with
  | EmptyString => Undefined
  | String c _ => Str (String c EmptyString)
  end.

(** [v.key] for the three names the component reads ([routes], [geometry]
    and [length]): a [TypeError] on [null] and [undefined], the own
    property of an object, the length of an array or of a string, and
    [undefined] for every other read. *)
Definition get (v : value) (key : string) : completion value :=
  match v with
  | Undefined | Null => Throw TypeError
  | Object fields => Normal (lookup key fields)
  | Array elems =>
      if String.eqb key "length"
      then Normal (Number (Finite (inject_Z (Z.of_nat (List.length elems)))))
      else Normal Undefined
  | Str s =>
      if String.eqb key "length"
      then Normal (Number (Finite (inject_Z (Z.of_nat (String.length s)))))
      else Normal Undefined
  | Bool _ | Number _ => Normal Undefined
  end.

(** [v[0]]. *)
Definition get_first (v : value) : completion value :=
  match v with
  | Undefined | Null => Throw TypeError
  | Object fields => Normal (lookup "0" fields)
  | Array elems => Normal (nth 0 elems Undefined)
  | Str s => Normal (string_head s)
  | Bool _ | Number _ => Normal Undefined
  end.

(** Truthiness. *)
Definition truthy (v : value) : bool :=
  match v with
  | Undefined | Null => false
  | Bool b => b
  | Number (Finite q) => negb (Qeq_bool q 0)
  | Number NaN => false
  | Number _ => true
  | Str s => negb (String.eqb s "")
  | Array _ | Object _ => true
  end.

Section Relational.

(** [v > 0] when [v] is a string, an array or an object goes through
    [ToPrimitive] and the parsing of a numeric string; it is left to the
    engine. *)
Variable coerced_gt_zero : value -> completion bool.

(** [v > 0]. *)
Definition gt_zero (v : value) : completion bool :=
  match v with
  | Undefined | Null => Normal false
  | Bool b => Normal b
  | Number (Finite q) => Normal (JsNumber.gtb q 0)
  | Number PosInfinity => Normal true
  | Number _ => Normal false
  | Str _ | Array _ | Object _ => coerced_gt_zero v
  end.

End Relational.

(** [ToNumber] of an array slot that holds a number or [undefined]. *)
Definition ToNumber (slot : option Q) : num :=
  match slot with
  | Some q => Finite q
  | None => NaN
  end.

Definition max2 (a b : num) : num :=
  match a, b with
  | NaN, _ | _, NaN => NaN
  | PosInfinity, _ | _, PosInfinity => PosInfinity
  | NegInfinity, x | x, NegInfinity => x
  | Finite x, Finite y => Finite (if Qle_bool x y then y else x)
  end.

Definition min2 (a b : num) : num :=
  match a, b with
  | NaN, _ | _, NaN => NaN
  | NegInfinity, _ | _, NegInfinity => NegInfinity
  | PosInfinity, x | x, PosInfinity => x
  | Finite x, Finite y => Finite (if Qle_bool x y then x else y)
  end.

(** [Math.max(...args)] and [Math.min(...args)]: the arguments are coerced
    to numbers and folded from [-Infinity], respectively [+Infinity]. *)
Definition Math_max (args : list (option Q)) : num :=
  fold_left (fun acc a => max2 acc (ToNumber a)) args NegInfinity.

Definition Math_min (args : list (option Q)) : num :=
  fold_left (fun acc a => min2 acc (ToNumber a)) args PosInfinity.

(** [Array.prototype.join] on an array of strings. *)
Fixpoint join (sep : string) (parts : list string) : string :=
  match parts with
  | [] => EmptyString
  | [p] => p
  | p :: rest => (p ++ sep ++ join sep rest)%string
  end.

(** [Array.prototype.slice(start, end)]: a negative index counts from the
    end of the array, and both indices are clamped to the array. *)
Definition relative_index (len : nat) (i : Z) : nat :=
  if (i <? 0)%Z
  then Z.to_nat (Z.max (Z.of_nat len + i) 0)
  else Nat.min (Z.to_nat i) len.

Definition slice {A} (l : list A) (start stop : Z) : list A :=
  let k := relative_index (List.length l) start in
  let final := relative_index (List.length l) stop in
  firstn (final - k) (skipn k l).

End Js.

Declare Scope js_scope.
Delimit Scope js_scope with js.
Notation "x <- c ;; k" := (Js.bind c (fun x => k))
  (at level 61, c at next level, right associativity) : js_scope.

(** ** Places, as the two map components and the screen see them *)

Module Place.

(** A JavaScript object is known by its identity; [===] and [!==] on two
    objects compare identities, not contents. *)
Definition obj := nat.

(** A place-valued expression: an object, or nothing ([undefined] or
    [null]). *)
Definition ref := option obj.

Definition strict_eq (a b : ref) : bool :=
  match a, b with
  | Some x, Some y => Nat.eqb x y
  | None, None => true
  | _, _ => false
  end.

Definition strict_neq (a b : ref) : bool := negb (strict_eq a b).

(** [!place]. *)
Definition is_missing (a : ref) : bool :=
  match a with Some _ => false | None => true end.

(** Modelled from the spec: the helpers [first] and [last] of the utils
    module, which is not among the source files; they are read as the
    first and the last element of an array, [undefined] on an empty one. *)
Definition first (arr : list obj) : ref := nth_error arr 0.
Definition last (arr : list obj) : ref :=
  nth_error arr (List.length arr - 1).

Record Coords := mkCoords { latitude : Q; longitude : Q }.

(** The [id] of a place and the current waypoint of an order: a string,
    [null] or [undefined]. *)
Inductive id_value :=
| IdUndefined
| IdNull
| IdString (s : string).

(** [a === b] on such values. *)
Definition id_strict_eq (a b : id_value) : bool :=
  match a, b with
  | IdUndefined, IdUndefined => true
  | IdNull, IdNull => true
  | IdString x, IdString y => String.eqb x y
  | _, _ => false
  end.

End Place.

(** ** PlaceMapView *)

Module PlaceMapView.
Import Place.

(** Utility to calculate zoom from deltas. *)
Definition calculateZoomLevel (zoom : Q) : Q := 15 - zoom.

Definition default_zoom : Q := 1.

(** The props of the [Camera] element. *)
Record CameraProps := mkCameraProps {
  zoomLevel : Q;
  centerCoordinate : Q * Q
}.

(** The argument of [cameraRef.current.setCamera]. *)
Record CameraStop := mkCameraStop {
  stop_centerCoordinate : Q * Q;
  stop_zoomLevel : Q;
  stop_animationDuration : Q
}.

Section Component.

(** [restoreFleetbasePlace] and [getCoordinates] belong to the location
    utils, which are not among the source files; [getCoordinates] returns
    the pair [latitude, longitude]. *)
Variable restoreFleetbasePlace : ref -> ref.
Variable getCoordinates : ref -> Q * Q.

(** The [Camera] element the component renders for a place and an optional
    [zoom] prop. *)
Definition camera (_place : ref) (zoom : option Q) : CameraProps :=
  let zoom := match zoom with Some z => z | None => default_zoom end in
  let place := restoreFleetbasePlace _place in
  let '(latitude, longitude) := getCoordinates place in
  let zoomLevel := calculateZoomLevel zoom in
  {| zoomLevel := zoomLevel; centerCoordinate := (longitude, latitude) |}.

(** The effect on [latitude] and [longitude]: it runs when the camera ref
    is set. *)
Definition camera_effect (_place : ref) (cameraRef_current : bool)
  : option CameraStop :=
  let place := restoreFleetbasePlace _place in
  let '(latitude, longitude) := getCoordinates place in
  if cameraRef_current
  then Some {| stop_centerCoordinate := (longitude, latitude);
               stop_zoomLevel := 16;
               stop_animationDuration := 500 |}
  else None.

End Component.

End PlaceMapView.

(** ** LiveOrderRoute *)

Module LiveOrderRoute.
Import Place.
Local Open Scope js_scope.

Definition calculateZoomLevel (zoom : Q) : Q := 14 - zoom.

Definition default_zoom : Q := 1.

Inductive MarkerSize := xxs | xs | sm | md | lg.

Definition default_markerSize : MarkerSize := sm.

(** The attributes of the order the component reads. *)
Record Order := mkOrder {
  pickup : ref;
  dropoff : ref;
  waypoints : list obj;
  current_waypoint : id_value;
  driver_assigned : ref
}.

(** The props, with [zoom] and [markerSize] still optional and the other
    defaults applied. *)
Record Props := mkProps {
  order : Order;
  zoom : option Q;
  markerSize : option MarkerSize;
  edgePaddingTop : Q;
  edgePaddingBottom : Q;
  edgePaddingLeft : Q;
  edgePaddingRight : Q;
  scrollEnabled : bool;
  focusCurrentDestination : bool
}.

(** A middle waypoint: the computed [coordinate] and the waypoint whose
    properties are spread into the new object. *)
Record MiddleWaypoint := mkMiddleWaypoint {
  coordinate : Coords;
  spread_of : obj
}.

(** What [fetch] resolves to: a response whose [json()] resolves to the
    parsed body or rejects. *)
Record Response := mkResponse { json : Js.completion Js.value }.

(** The geometry kept in [routeGeometry], typed as the camera effect reads
    it: [coordinates] may be missing, and each coordinate is a
    [number[]]. *)
Record Geometry := mkGeometry { coordinates : option (list (list Q)) }.

Record Bounds := mkBounds {
  ne : Js.num * Js.num;
  sw : Js.num * Js.num
}.

(** The arguments of [cameraRef.current.fitBounds]. *)
Record FitBoundsCall := mkFitBounds {
  fit_ne : Js.num * Js.num;
  fit_sw : Js.num * Js.num;
  fit_padding : list Q;
  fit_duration : Q
}.

Record CameraProps := mkCameraProps {
  zoomLevel : Q;
  centerCoordinate : Q * Q
}.

Section Component.

(** The surroundings of the component: the location utils
    ([restoreFleetbasePlace], [getCoordinates]), the location context, the
    SDK's [Place] constructor, the [id] of a place, a [coordinate] property
    a waypoint may carry itself, the rendering of a number inside a
    template literal, the configured access token, [fetch], and the
    comparison of a non-numeric value with [0]. *)
Variable restoreFleetbasePlace : ref -> ref.
Variable getCoordinates : ref -> Q * Q.
Variable getDriverLocationAsPlace : ref.
Variable newPlace : ref -> obj.
Variable id_of : obj -> id_value.
Variable own_coordinate : obj -> option Coords.
Variable Number_toString : Q -> string.
Variable MAPBOX_ACCESS_TOKEN : string.
Variable fetch : string -> Js.completion Response.
Variable coerced_gt_zero : Js.value -> Js.completion bool.

Definition getPlaceCoords (place : ref) : Coords :=
  let '(latitude, longitude) := getCoordinates place in
  {| latitude := latitude; longitude := longitude |}.

(** [`${c.longitude},${c.latitude}`]. *)
Definition render (c : Coords) : string :=
  (Number_toString (longitude c) ++ "," ++ Number_toString (latitude c))%string.

(** The array literal of [fetchDirections], before [join]. *)
Definition coordinate_parts (origin destination : Coords)
    (waypoints : list MiddleWaypoint) : list string :=
  [render origin]
    ++ map (fun wp => render (coordinate wp)) waypoints
    ++ [render destination].

Definition directions_coordinates (origin destination : Coords)
    (waypoints : list MiddleWaypoint) : string :=
  Js.join ";" (coordinate_parts origin destination waypoints).

Definition directions_url (origin destination : Coords)
    (waypoints : list MiddleWaypoint) : string :=
  ("https://api.mapbox.com/directions/v5/mapbox/driving/"
     ++ directions_coordinates origin destination waypoints
     ++ "?geometries=geojson&access_token="
     ++ MAPBOX_ACCESS_TOKEN)%string.

(** The body of the [try] block: [Some g] when [return g] is reached,
    [None] when the block ends without returning. *)
Definition fetchDirections_try (url : string)
  : Js.completion (option Js.value) :=
  response <- fetch url ;;
  data <- json response ;;
  routes <- Js.get data "routes" ;;
  guard <- (if Js.truthy routes
            then routes <- Js.get data "routes" ;;
                 len <- Js.get routes "length" ;;
                 Js.gt_zero coerced_gt_zero len
            else Js.Normal false) ;;
  if guard : bool
  then routes <- Js.get data "routes" ;;
       route <- Js.get_first routes ;;
       geometry <- Js.get route "geometry" ;;
       Js.Normal (Some geometry)
  else Js.Normal None.

(** [fetchDirections]: the settled state of the promise it returns,
    [Normal v] when it is fulfilled with [v] and [Throw e] when it is
    rejected.  The [catch] block logs the error and falls through to
    [return null]. *)
Definition fetchDirections (origin destination : Coords)
    (waypoints : list MiddleWaypoint) : Js.completion Js.value :=
  let url := directions_url origin destination waypoints in
  returned <- Js.try_catch (fetchDirections_try url)
                           (fun _error => Js.Normal None) ;;
  match returned with
  | Some geometry => Js.Normal geometry
  | None => Js.Normal Js.Null
  end.

(** [currentDestination]. *)
Definition ref_to_list (r : ref) : list obj :=
  match r with Some o => [o] | None => [] end.

Definition currentDestination (o : Order) : ref :=
  let currentWaypoint := current_waypoint o in
  let locations :=
    ref_to_list (pickup o) ++ waypoints o ++ ref_to_list (dropoff o) in
  let same_id place := id_strict_eq (id_of place) currentWaypoint in
  let destination :=
    match find same_id locations with
    | Some place => Some place
    | None => nth_error locations 0
    end in
  Some (newPlace destination).

(** The start and the end waypoint. *)
Definition startWaypoint (o : Order) : ref :=
  if is_missing (pickup o) && (0 <? List.length (waypoints o))%nat
  then nth_error (waypoints o) 0
  else pickup o.

Definition endWaypoint (o : Order) : ref :=
  if is_missing (dropoff o) && (0 <? List.length (waypoints o))%nat
       && strict_neq (last (waypoints o)) (first (waypoints o))
  then last (waypoints o)
  else dropoff o.

Definition start (p : Props) : ref :=
  if focusCurrentDestination p
  then getDriverLocationAsPlace
  else restoreFleetbasePlace (startWaypoint (order p)).

Definition end_ (p : Props) : ref :=
  if focusCurrentDestination p
  then currentDestination (order p)
  else restoreFleetbasePlace (endWaypoint (order p)).

Definition origin (p : Props) : Coords := getPlaceCoords (start p).
Definition destination (p : Props) : Coords := getPlaceCoords (end_ p).

(** [{ coordinate: getPlaceCoords(waypoint), ...waypoint }]: the spread
    comes second, so a [coordinate] property of the waypoint itself
    replaces the computed one. *)
Definition decorate (waypoint : obj) : MiddleWaypoint :=
  {| coordinate :=
       match own_coordinate waypoint with
       | Some c => c
       | None => getPlaceCoords (Some waypoint)
       end;
     spread_of := waypoint |}.

(** Only the "middle" waypoints. *)
Definition middleWaypoints (p : Props) : list MiddleWaypoint :=
  if focusCurrentDestination p
  then []
  else map decorate (Js.slice (waypoints (order p)) 1 (-1)).

(** Marker size, adjusted if there are many middle waypoints. *)
Definition finalMarkerSize (p : Props) : MarkerSize :=
  let markerSize :=
    match markerSize p with Some s => s | None => default_markerSize end in
  let n := List.length (middleWaypoints p) in
  if (0 <? n)%nat then (if (3 <? n)%nat then xxs else xs) else markerSize.

(** The effect that fetches the route: it calls [fetchDirections] when both
    latitudes are truthy. *)
Definition directions_effect (p : Props) : option (Js.completion Js.value) :=
  if negb (Qeq_bool (latitude (origin p)) 0)
       && negb (Qeq_bool (latitude (destination p)) 0)
  then Some (fetchDirections (origin p) (destination p) (middleWaypoints p))
  else None.

(** [bounds] of the camera effect. *)
Definition route_bounds (coordinates : list (list Q)) : Bounds :=
  let lngs := map (fun c => nth_error c 0) coordinates in
  let lats := map (fun c => nth_error c 1) coordinates in
  {| ne := (Js.Math_max lngs, Js.Math_max lats);
     sw := (Js.Math_min lngs, Js.Math_min lats) |}.

(** The effect that fits the camera to the route bounds. *)
Definition fitBounds_effect (p : Props) (routeGeometry : option Geometry)
    (cameraRef_current : bool) : option FitBoundsCall :=
  match routeGeometry with
  | Some geometry =>
      if cameraRef_current
      then match coordinates geometry with
           | Some coordinates =>
               if (0 <? List.length coordinates)%nat
               then
                 let bounds := route_bounds coordinates in
                 Some {| fit_ne := ne bounds;
                         fit_sw := sw bounds;
                         fit_padding :=
                           [edgePaddingTop p; edgePaddingRight p;
                            edgePaddingBottom p; edgePaddingLeft p];
                         fit_duration := 1000 |}
               else None
           | None => None
           end
      else None
  | None => None
  end.

(** The [Camera] element. *)
Definition camera (p : Props) : CameraProps :=
  let zoom := match zoom p with Some z => z | None => default_zoom end in
  {| zoomLevel := calculateZoomLevel zoom;
     centerCoordinate :=
       (JsNumber.or_zero (longitude (origin p)),
        JsNumber.or_zero (latitude (origin p))) |}.

End Component.

End LiveOrderRoute.

(** ** EditLocationCoordScreen *)

Module EditLocationCoordScreen.
Import Place.

(** The SDK's point: [new Point(latitude, longitude)] takes the latitude
    first. *)
Record Point := mkPoint { point_latitude : Q; point_longitude : Q }.

Definition newPoint (latitude longitude : Q) : Point :=
  {| point_latitude := latitude; point_longitude := longitude |}.

(** The event the map hands to [onCameraChanged] and [onMapIdle], as far as
    the handlers read it. *)
Record Properties := mkProperties { isUserInteraction : bool }.
Record Geometry := mkGeometry { coordinates : option (Q * Q) }.
Record Feature := mkFeature {
  properties : option Properties;
  geometry : option Geometry
}.

Record CameraStop := mkCameraStop {
  stop_centerCoordinate : Q * Q;
  stop_zoomLevel : Q;
  stop_animationDuration : Q
}.

(** The two [useState] cells, and the callbacks [setTimeout] holds: each
    one closes over the pair it will store. *)
Record State := mkState {
  centerCoordinate : Q * Q;
  isPanning : bool;
  timers : list (Q * Q)
}.

(** What [handleSave] calls, in order. *)
Inductive SaveEffect :=
| SetAttribute (name : string) (location : Point)
| Update (location : Point)
| UpdateLocationState
| NavigationReset (index : nat) (routes : list string)
| LogError
| ToastError.

(** Which of the calls of [handleSave] fail: in the first [try] block
    [setAttribute] and [handleRedirect], in the second the awaited
    [update], [updateLocationState] and [handleRedirect]. *)
Record SaveOutcome := mkSaveOutcome {
  setAttribute_throws : bool;
  redirect_throws : bool;
  update_rejects : bool;
  updateLocationState_throws : bool;
  redirect_after_update_throws : bool
}.

Inductive Event :=
| TouchStart
| TouchEnd
| CameraChanged (feature : Feature)
| MapIdle (feature : Feature)
| ResetPressed (cameraRef_current : bool)
| TimerFired.

Section Screen.

Variable restoreFleetbasePlace : ref -> ref.
Variable getCoordinates : ref -> Q * Q.

(** [route.params.place], [place.isNew] and [route.params.redirectTo]. *)
Variable params_place : ref.
Variable place_isNew : bool.
Variable redirectTo : string.

Definition place : ref := restoreFleetbasePlace params_place.

Definition initial : State :=
  let '(latitude, longitude) := getCoordinates place in
  {| centerCoordinate := (longitude, latitude);
     isPanning := false;
     timers := [] |}.

Definition setIsPanning (b : bool) (st : State) : State :=
  {| centerCoordinate := centerCoordinate st;
     isPanning := b;
     timers := timers st |}.

Definition setCenterCoordinate (c : Q * Q) (st : State) : State :=
  {| centerCoordinate := c;
     isPanning := isPanning st;
     timers := timers st |}.

Definition handleTouchStart (st : State) : State := setIsPanning true st.
Definition handleTouchEnd (st : State) : State := setIsPanning false st.

Definition handleRegionChange (feature : Feature) (st : State) : State :=
  match properties feature with
  | Some props => if isUserInteraction props then setIsPanning true st else st
  | None => st
  end.

Definition handleRegionChangeComplete (feature : Feature) (st : State)
  : State :=
  let st := setIsPanning false st in
  match geometry feature with
  | Some g =>
      match coordinates g with
      | Some c => setCenterCoordinate c st
      | None => st
      end
  | None => st
  end.

Definition handleRedirect : SaveEffect :=
  if String.eqb redirectTo "AddressBook"
  then NavigationReset 2 ["Profile"; redirectTo; "EditLocation"]%string
  else NavigationReset 1 [redirectTo; "EditLocation"]%string.

(** The first [try] block of [handleSave], entered for a new place: the
    calls made, and whether [return handleRedirect()] completed. *)
Definition save_new (out : SaveOutcome) (lat lng : Q)
  : list SaveEffect * bool :=
  if place_isNew
  then
    if setAttribute_throws out
    then ([SetAttribute "location" (newPoint lat lng); LogError; ToastError],
          false)
    else if redirect_throws out
    then ([SetAttribute "location" (newPoint lat lng); handleRedirect;
           LogError; ToastError], false)
    else ([SetAttribute "location" (newPoint lat lng); handleRedirect], true)
  else ([], false).

(** The second [try] block. *)
Definition save_update (out : SaveOutcome) (lat lng : Q) : list SaveEffect :=
  if update_rejects out
  then [Update (newPoint lat lng); LogError; ToastError]
  else if updateLocationState_throws out
  then [Update (newPoint lat lng); UpdateLocationState; LogError; ToastError]
  else if redirect_after_update_throws out
  then [Update (newPoint lat lng); UpdateLocationState; handleRedirect;
        LogError; ToastError]
  else [Update (newPoint lat lng); UpdateLocationState; handleRedirect].

Definition handleSave (out : SaveOutcome) (st : State) : list SaveEffect :=
  let '(lng, lat) := centerCoordinate st in
  let '(calls, returned) := save_new out lat lng in
  if returned then calls else calls ++ save_update out lat lng.

(** [handleReset]: the camera is moved when the ref is set, and the update
    of the picked coordinate is left to a timer. *)
Definition handleReset (cameraRef_current : bool) (st : State)
  : State * option CameraStop :=
  let '(lat, lng) := getCoordinates place in
  let st := setIsPanning true st in
  let stop :=
    if cameraRef_current
    then Some {| stop_centerCoordinate := (lng, lat);
                 stop_zoomLevel := 17;
                 stop_animationDuration := 500 |}
    else None in
  ({| centerCoordinate := centerCoordinate st;
      isPanning := isPanning st;
      timers := timers st ++ [(lng, lat)] |}, stop).

(** The oldest timer fires: all of them wait the same 500 ms. *)
Definition timer_fired (st : State) : State :=
  match timers st with
  | [] => st
  | c :: rest =>
      {| centerCoordinate := c;
         isPanning := false;
         timers := rest |}
  end.

Definition step (st : State) (e : Event) : State :=
  match e with
  | TouchStart => handleTouchStart st
  | TouchEnd => handleTouchEnd st
  | CameraChanged feature => handleRegionChange feature st
  | MapIdle feature => handleRegionChangeComplete feature st
  | ResetPressed cameraRef_current => fst (handleReset cameraRef_current st)
  | TimerFired => timer_fired st
  end.

Definition run (st : State) (events : list Event) : State :=
  fold_left step events st.

(** The locations [handleSave] hands to the place. *)
Definition stored_location (e : SaveEffect) : option Point :=
  match e with
  | SetAttribute _ location => Some location
  | Update location => Some location
  | _ => None
  end.

End Screen.

End EditLocationCoordScreen.

(** ** The vocabulary of the statements *)

Module Statements.
Import Place.

(** [m] is the maximum, respectively the minimum, of the numbers [l]. *)
Definition maximum_of (m : Q) (l : list Q) : Prop :=
  In m l /\ forall x, In x l -> x <= m.

Definition minimum_of (m : Q) (l : list Q) : Prop :=
  In m l /\ forall x, In x l -> m <= x.

(** The longitudes and the latitudes of a list of coordinates whose
    entries all have both. *)
Definition longitudes (coordinates : list (list Q)) : list Q :=
  map (fun c => nth 0 c 0) coordinates.

Definition latitudes (coordinates : list (list Q)) : list Q :=
  map (fun c => nth 1 c 0) coordinates.

Section Directions.

Variable Number_toString : Q -> string.

(** A coordinate of the directions request: longitude, comma, latitude. *)
Definition lng_lat (c : Coords) : string :=
  (Number_toString (longitude c) ++ "," ++ Number_toString (latitude c))%string.

(** The waypoints of the request in their given order, each one preceded
    by a semicolon. *)
Fixpoint waypoint_run (waypoints : list LiveOrderRoute.MiddleWaypoint)
  : string :=
  match waypoints with
  | [] => EmptyString
  | wp :: rest =>
      (";" ++ lng_lat (LiveOrderRoute.coordinate wp) ++ waypoint_run rest)%string
  end.

(** Origin first, then the waypoints, then the destination. *)
Definition request_coordinates (origin destination : Coords)
    (waypoints : list LiveOrderRoute.MiddleWaypoint) : string :=
  (lng_lat origin ++ waypoint_run waypoints ++ ";" ++ lng_lat destination)%string.

End Directions.

(** The [routes] member of the parsed body of a response. *)
Inductive routes_of : Js.completion LiveOrderRoute.Response -> Js.value -> Prop :=
| routes_parsed response data routes :
    LiveOrderRoute.json response = Js.Normal data ->
    Js.get data "routes" = Js.Normal routes ->
    routes_of (Js.Normal response) routes.

(** The outcomes of the request on which [fetchDirections] returns
    [null]. *)
Inductive returns_null : Js.completion LiveOrderRoute.Response -> Prop :=
| fetch_fails e :
    returns_null (Js.Throw e)
| parsing_fails response e :
    LiveOrderRoute.json response = Js.Throw e ->
    returns_null (Js.Normal response)
| body_is_null response :
    LiveOrderRoute.json response = Js.Normal Js.Null ->
    returns_null (Js.Normal response)
| routes_absent outcome :
    routes_of outcome Js.Undefined ->
    returns_null outcome
| routes_null outcome :
    routes_of outcome Js.Null ->
    returns_null outcome
| routes_empty outcome :
    routes_of outcome (Js.Array []) ->
    returns_null outcome
| first_route_null outcome rest :
    routes_of outcome (Js.Array (Js.Null :: rest)) ->
    returns_null outcome.

(** The outcomes on which it returns the geometry of the first route: the
    routes are a non-empty array, and reading the [geometry] of its first
    element does not throw (the element is not [null]). *)
Inductive returns_geometry
  : Js.completion LiveOrderRoute.Response -> Js.value -> Prop :=
| first_route_geometry outcome route rest geometry :
    routes_of outcome (Js.Array (route :: rest)) ->
    Js.get route "geometry" = Js.Normal geometry ->
    returns_geometry outcome geometry.

Section EditScreen.

Variable restoreFleetbasePlace : ref -> ref.
Variable getCoordinates : ref -> Q * Q.
Variable params_place : ref.

(** The stored coordinates of the place the screen was opened on,
    longitude first. *)
Definition original : Q * Q :=
  let '(lat, lng) :=
    getCoordinates
      (EditLocationCoordScreen.place restoreFleetbasePlace params_place) in
  (lng, lat).

(** Every pending timer holds the stored coordinates. *)
Definition timers_hold_original (st : EditLocationCoordScreen.State) : Prop :=
  Forall (fun c => c = original) (EditLocationCoordScreen.timers st).

(** The locations among the calls of [handleSave]. *)
Definition stored_locations (calls : list EditLocationCoordScreen.SaveEffect)
  : list EditLocationCoordScreen.Point :=
  flat_map
    (fun e =>
       match EditLocationCoordScreen.stored_location e with
       | Some location => [location]
       | None => []
       end)
    calls.

End EditScreen.

(** The map at rest: where its centre lies, and the event it hands to
    [onMapIdle]. *)
Record MapAtRest := mkMapAtRest {
  map_centre : Q * Q;
  reported : EditLocationCoordScreen.Feature
}.

End Statements.

(** ** Further behaviour of the components *)

Module Behaviour.
Import Place.

(** *** The route state of LiveOrderRoute *)

(** [.then(geometry => { if (geometry) setRouteGeometry(geometry) })]: the
    [routeGeometry] cell once the promise has settled.  A rejected promise
    does not reach the callback. *)
Definition then_setRouteGeometry (routeGeometry : Js.value)
    (settled : Js.completion Js.value) : Js.value :=
  match settled with
  | Js.Normal geometry =>
      if Js.truthy geometry then geometry else routeGeometry
  | Js.Throw _ => routeGeometry
  end.

(** The cell after the effect that fetches the route has run. *)
Definition after_directions_effect
    (effect : option (Js.completion Js.value)) (routeGeometry : Js.value)
  : Js.value :=
  match effect with
  | Some settled => then_setRouteGeometry routeGeometry settled
  | None => routeGeometry
  end.

(** A parsed body that is neither an object nor [null]. *)
Definition plain_body (data : Js.value) : bool :=
  match data with
  | Js.Bool _ | Js.Number _ | Js.Str _ | Js.Array _ => true
  | _ => false
  end.

(** [place?.id === currentWaypoint] of [currentDestination]. *)
Definition same_id (id_of : obj -> id_value)
    (currentWaypoint : id_value) (place : obj) : bool :=
  id_strict_eq (id_of place) currentWaypoint.

(** [[pickup, ...waypoints, dropoff].filter(Boolean)]. *)
Definition locations (o : LiveOrderRoute.Order) : list obj :=
  LiveOrderRoute.ref_to_list (LiveOrderRoute.pickup o)
    ++ LiveOrderRoute.waypoints o
    ++ LiveOrderRoute.ref_to_list (LiveOrderRoute.dropoff o).

(** *** The events of the coordinate-editing screen *)

(** The coordinates the idle events of a run carry. *)
Definition idle_coordinates (events : list EditLocationCoordScreen.Event)
  : list (Q * Q) :=
  flat_map
    (fun e =>
       match e with
       | EditLocationCoordScreen.MapIdle feature =>
           match EditLocationCoordScreen.geometry feature with
           | Some g =>
               match EditLocationCoordScreen.coordinates g with
               | Some c => [c]
               | None => []
               end
           | None => []
           end
       | _ => []
       end)
    events.

(** Touches and camera movements, as opposed to idle events, resets and
    timers. *)
Definition is_gesture (e : EditLocationCoordScreen.Event) : bool :=
  match e with
  | EditLocationCoordScreen.TouchStart
  | EditLocationCoordScreen.TouchEnd
  | EditLocationCoordScreen.CameraChanged _ => true
  | _ => false
  end.

(** Whether a call of [handleSave] is of a given kind. *)
Definition is_update (e : EditLocationCoordScreen.SaveEffect) : bool :=
  match e with EditLocationCoordScreen.Update _ => true | _ => false end.

Definition is_setAttribute (e : EditLocationCoordScreen.SaveEffect) : bool :=
  match e with
  | EditLocationCoordScreen.SetAttribute _ _ => true
  | _ => false
  end.

Definition is_toast (e : EditLocationCoordScreen.SaveEffect) : bool :=
  match e with EditLocationCoordScreen.ToastError => true | _ => false end.

End Behaviour.

(** ** Whole degrees *)

Module WholeDegrees.
Import PrimFloat.

(** The double of a whole number of a few digits. *)
Definition degrees (z : Z) : float :=
  if (z <? 0)%Z
  then (- of_uint63 (Uint63.of_Z (- z)))%float
  else of_uint63 (Uint63.of_Z z).

(** A double whose exact value is the whole number [z]. *)
Definition has_value (f : float) (z : Z) : Prop :=
  match Double.to_Q f with
  | Some q => q == inject_Z z
  | None => False
  end.

Definition has_valueb (f : float) (z : Z) : bool :=
  match Double.to_Q f with
  | Some q => Qeq_bool q (inject_Z z)
  | None => false
  end.

(** The wrap step of [rotate] on whole numbers: a delta of absolute value
    above 180 has 360 times its sign subtracted. *)
Definition wrapped (raw : Z) : Z :=
  if (180 <? Z.abs raw)%Z then (raw - 360 * Z.sgn raw)%Z else raw.

(** The whole numbers from [lo] on, [n] of them, each with its double. *)
Definition table (lo : Z) (n : nat) : list (Z * float) :=
  map (fun k => let z := (lo + Z.of_nat k)%Z in (z, degrees z)) (seq 0 n).

End WholeDegrees.

(** * Properties *)

(** ** Arithmetic *)

Module JsNumberFacts.
Import JsNumber.

Lemma gtb_true x y : gtb x y = true <-> y < x.
Proof.
  unfold gtb. rewrite negb_true_iff, <- not_true_iff_false, Qle_bool_iff.
  split; intro H; [apply Qnot_le_lt | apply Qlt_not_le]; exact H.
Qed.


Lemma ltb_true x y : ltb x y = true <-> x < y.
Proof. unfold ltb. apply (gtb_true y x). Qed.





End JsNumberFacts.

(** ** The tracking marker *)

Module TrackingMarkerFacts.
Import JsNumber JsNumberFacts TrackingMarker.

(** C6. [move] issues exactly one update, of the current coordinate, and
    computes no intermediate position; after it the current coordinate is
    [(newLatitude, newLongitude)], the rest of the state is as before, and
    the [duration] argument changes neither the update nor the state. *)
Theorem move_sets_coordinate (p : Props) (st : State)
    (newLatitude newLongitude : Q) (d : option Q) :
  move p newLatitude newLongitude d =
    [ SetCurrentCoordinate (mkCoordinate newLatitude newLongitude) ]
  /\ currentCoordinate (apply_effects st (move p newLatitude newLongitude d))
     = mkCoordinate newLatitude newLongitude
  /\ markerView_coordinate
       (apply_effects st (move p newLatitude newLongitude d))
     = (newLongitude, newLatitude)
  /\ rotation_value (apply_effects st (move p newLatitude newLongitude d))
     = rotation_value st
  /\ forall d' : option Q,
       move p newLatitude newLongitude d' = move p newLatitude newLongitude d.
Proof.
  repeat split.
Qed.

End TrackingMarkerFacts.

(** ** The rotation of the marker on doubles *)

Module MarkerRotationFacts.
Import PrimFloat WholeDegrees MarkerRotation.

Lemma float_eq (x y : float) : Leibniz.eqb x y = true -> x = y.
Proof. apply FloatAxioms.Leibniz.eqb_spec. Qed.

Lemma in_table (lo : Z) (n : nat) (z : Z) :
  (lo <= z < lo + Z.of_nat n)%Z -> In (z, degrees z) (table lo n).
Proof.
  intro H. unfold table. apply in_map_iff.
  exists (Z.to_nat (z - lo)). split.
  - cbv zeta. replace (lo + Z.of_nat (Z.to_nat (z - lo)))%Z with z by lia.
    reflexivity.
  - apply in_seq. lia.
Qed.

(** A test that holds on every entry of a table holds on every whole
    number of its range, and one that holds on every pair of entries of
    two tables holds on every pair of whole numbers. *)
Lemma on_table (P : Z -> float -> bool) (lo : Z) (n : nat) :
  forallb (fun e => P (fst e) (snd e)) (table lo n) = true ->
  forall z, (lo <= z < lo + Z.of_nat n)%Z -> P z (degrees z) = true.
Proof.
  intros H z Hz. rewrite forallb_forall in H.
  exact (H _ (in_table lo n z Hz)).
Qed.

Lemma on_tables (P : Z -> float -> Z -> float -> bool)
    (lo : Z) (n : nat) (lo' : Z) (n' : nat) :
  (let rows := table lo n in
   let columns := table lo' n' in
   forallb (fun a =>
              forallb (fun b => P (fst a) (snd a) (fst b) (snd b)) columns)
           rows) = true ->
  forall x y,
    (lo <= x < lo + Z.of_nat n)%Z -> (lo' <= y < lo' + Z.of_nat n')%Z ->
    P x (degrees x) y (degrees y) = true.
Proof.
  cbv zeta. intros H x y Hx Hy. rewrite forallb_forall in H.
  specialize (H _ (in_table lo n x Hx)). rewrite forallb_forall in H.
  exact (H _ (in_table lo' n' y Hy)).
Qed.

(** The subtraction of two whole degrees of one turn is exact. *)
Lemma sub_exact (r h : Z) :
  (0 <= r < 360)%Z -> (0 <= h < 360)%Z ->
  (degrees h - Double.or_zero (degrees r))%float = degrees (h - r).
Proof.
  intros Hr Hh. apply float_eq.
  apply (on_tables
           (fun r fr h fh =>
              Leibniz.eqb (fh - Double.or_zero fr)%float (degrees (h - r)))
           0 360 0 360); [|exact Hr|exact Hh].
  vm_compute. reflexivity.
Qed.

(** The wrap step on a whole number of degrees. *)
Lemma wrap_exact (raw : Z) :
  (-360 < raw < 360)%Z ->
  (if (180 <? Double.Math_abs (degrees raw))%float
   then (degrees raw - 360 * Double.Math_sign (degrees raw))%float
   else degrees raw)
  = degrees (wrapped raw).
Proof.
  intro H. apply float_eq.
  apply (on_table
           (fun raw f =>
              Leibniz.eqb
                (if (180 <? Double.Math_abs f)%float
                 then (f - 360 * Double.Math_sign f)%float
                 else f)
                (degrees (wrapped raw)))
           (-359) 719); [|lia].
  vm_compute. reflexivity.
Qed.

(** Adding a delta of at most half a turn to a whole degree is exact. *)
Lemma add_exact (r d : Z) :
  (0 <= r < 360)%Z -> (-180 <= d <= 180)%Z ->
  (Double.or_zero (degrees r) + degrees d)%float = degrees (r + d).
Proof.
  intros Hr Hd. apply float_eq.
  apply (on_tables
           (fun r fr d fd =>
              Leibniz.eqb (Double.or_zero fr + fd)%float (degrees (r + d)))
           0 360 (-180) 361); [|exact Hr|lia].
  vm_compute. reflexivity.
Qed.

(** The remainder of a whole number of degrees. *)
Lemma rem_exact (z : Z) :
  (-180 <= z < 540)%Z ->
  Double.rem (degrees z) 360%float = degrees (Z.rem z 360).
Proof.
  intro H. apply float_eq.
  apply (on_table
           (fun z f =>
              Leibniz.eqb (Double.rem f 360%float) (degrees (Z.rem z 360)))
           (-180) 720); [|lia].
  vm_compute. reflexivity.
Qed.

Lemma degrees_value (z : Z) :
  (-360 < z < 360)%Z -> has_value (degrees z) z.
Proof.
  intro H.
  assert (Hb : has_valueb (degrees z) z = true).
  { apply (on_table (fun z f => has_valueb f z) (-359) 719); [|lia].
    vm_compute. reflexivity. }
  unfold has_valueb in Hb. unfold has_value.
  destruct (Double.to_Q (degrees z)) as [q|]; [|discriminate].
  apply Qeq_bool_iff. exact Hb.
Qed.


Lemma wrapped_half_turn (raw : Z) :
  (-360 < raw < 360)%Z -> (Z.abs (wrapped raw) <= 180)%Z.
Proof.
  intro H. unfold wrapped. destruct (Z.ltb_spec 180 (Z.abs raw)); lia.
Qed.

(** On whole degrees of one turn the delta and the target of [rotate] are
    the whole numbers that the same steps give on integers. *)
Lemma rotate_delta_whole (r h : Z) :
  (0 <= r < 360)%Z -> (0 <= h < 360)%Z ->
  rotate_delta (Double.or_zero (degrees r)) (degrees h)
  = degrees (wrapped (h - r)).
Proof.
  intros Hr Hh. unfold rotate_delta. cbv zeta.
  rewrite (sub_exact r h Hr Hh). apply wrap_exact. lia.
Qed.

Lemma finalRotation_whole (r h : Z) :
  (0 <= r < 360)%Z -> (0 <= h < 360)%Z ->
  finalRotation (Double.or_zero (degrees r)) (degrees h)
  = degrees (Z.rem (r + wrapped (h - r)) 360).
Proof.
  intros Hr Hh. unfold finalRotation.
  rewrite (rotate_delta_whole r h Hr Hh).
  pose proof (wrapped_half_turn (h - r)) as Hw.
  rewrite add_exact by lia. apply rem_exact. lia.
Qed.

Lemma rem_of_target (r h : Z) :
  (0 <= r < 360)%Z -> (0 <= h < 360)%Z ->
  (h - r <= 180 -> Z.rem (r + wrapped (h - r)) 360 = h)%Z
  /\ (180 < h - r -> Z.rem (r + wrapped (h - r)) 360 = h - 360)%Z.
Proof.
  intros Hr Hh. unfold wrapped.
  destruct (Z.ltb_spec 180 (Z.abs (h - r))) as [Hbig|Hsmall]; split; intro H.
  - replace (r + (h - r - 360 * Z.sgn (h - r)))%Z with (h + 360)%Z by lia.
    pose proof (Z.quot_rem' (h + 360) 360) as E.
    pose proof (Z.rem_bound_pos_pos (h + 360) 360 ltac:(lia) ltac:(lia)).
    lia.
  - replace (r + (h - r - 360 * Z.sgn (h - r)))%Z with (h - 360)%Z by lia.
    pose proof (Z.quot_rem' (h - 360) 360) as E.
    pose proof (Z.rem_bound_pos_neg (h - 360) 360 ltac:(lia) ltac:(lia)).
    lia.
  - replace (r + (h - r))%Z with h by lia. apply Z.rem_small. lia.
  - lia.
Qed.




(** On whole degrees of one turn the target is the heading itself, except
    on a backward turn across north ([h - r] above 180), where it is the
    heading less one turn, a negative angle. *)
Theorem rotate_target_whole_degrees (r h : Z) :
  (0 <= r < 360)%Z -> (0 <= h < 360)%Z ->
  (h - r <= 180 ->
   finalRotation (Double.or_zero (degrees r)) (degrees h) = degrees h)%Z
  /\ (180 < h - r ->
      finalRotation (Double.or_zero (degrees r)) (degrees h)
      = degrees (h - 360)
      /\ has_value (degrees (h - 360)) (h - 360))%Z.
Proof.
  intros Hr Hh.
  pose proof (rem_of_target r h Hr Hh) as [Hfwd Hback].
  rewrite (finalRotation_whole r h Hr Hh). split; intro H.
  - rewrite Hfwd by exact H. reflexivity.
  - rewrite Hback by exact H. split; [reflexivity|].
    apply degrees_value. lia.
Qed.

Lemma rotate_target_whole_degrees_witness :
  finalRotation (Double.or_zero (degrees 10)) (degrees 350) = degrees (-10)
  /\ has_value (degrees (-10)) (-10).
Proof.
  apply (proj2 (rotate_target_whole_degrees 10 350 ltac:(lia) ltac:(lia))).
  lia.
Defined.

End MarkerRotationFacts.

(** ** The zoom transform *)

Module ZoomFacts.

(** C2. [calculateZoomLevel] of PlaceMapView is [15 - zoom] and that of
    LiveOrderRoute is [14 - zoom], for every [zoom]; the [Camera] element
    of each component receives this value as its [zoomLevel], computed
    from the [zoom] prop, or from its default [1] when the prop is not
    given. *)
Theorem calculateZoomLevel_linear :
  (forall zoom : Q, PlaceMapView.calculateZoomLevel zoom = 15 - zoom)
  /\ (forall zoom : Q, LiveOrderRoute.calculateZoomLevel zoom = 14 - zoom)
  /\ (forall restoreFleetbasePlace getCoordinates place (zoom : Q),
        PlaceMapView.zoomLevel
          (PlaceMapView.camera restoreFleetbasePlace getCoordinates place
             (Some zoom))
        = PlaceMapView.calculateZoomLevel zoom)
  /\ (forall restoreFleetbasePlace getCoordinates place,
        PlaceMapView.zoomLevel
          (PlaceMapView.camera restoreFleetbasePlace getCoordinates place None)
        = PlaceMapView.calculateZoomLevel 1)
  /\ (forall restoreFleetbasePlace getCoordinates getDriverLocationAsPlace
             (p : LiveOrderRoute.Props),
        LiveOrderRoute.zoomLevel
          (LiveOrderRoute.camera restoreFleetbasePlace getCoordinates
             getDriverLocationAsPlace p)
        = LiveOrderRoute.calculateZoomLevel
            (match LiveOrderRoute.zoom p with Some z => z | None => 1 end)).
Proof.
  split; [reflexivity|].
  split; [reflexivity|].
  split.
  { intros restore getC place zoom. unfold PlaceMapView.camera.
    destruct (getC (restore place)) as [latitude longitude]. reflexivity. }
  split.
  { intros restore getC place. unfold PlaceMapView.camera.
    destruct (getC (restore place)) as [latitude longitude]. reflexivity. }
  intros. reflexivity.
Qed.

End ZoomFacts.

(** ** The camera fitting of LiveOrderRoute *)

Module BoundsFacts.
Import Js Statements LiveOrderRoute.

Lemma Qle_bool_false x y : Qle_bool x y = false -> y < x.
Proof.
  intro H. apply Qnot_le_lt. intro L.
  apply Qle_bool_iff in L. congruence.
Qed.

(** Folding [max2] over finite numbers from a finite start stays finite
    and reaches the largest of them. *)
Lemma fold_max_finite (l : list Q) : forall acc : Q,
  exists m : Q,
    fold_left (fun a x => max2 a (ToNumber x)) (map Some l) (Finite acc)
      = Finite m
    /\ In m (acc :: l)
    /\ forall x, In x (acc :: l) -> x <= m.
Proof.
  induction l as [|q l IH]; intro acc.
  - exists acc. simpl. split; [reflexivity|]. split; [now left|].
    intros x [<-|[]]. apply Qle_refl.
  - simpl fold_left. simpl max2.
    destruct (Qle_bool acc q) eqn:E.
    + destruct (IH q) as (m & Hm & Hin & Hub).
      exists m. split; [exact Hm|]. split.
      * right. exact Hin.
      * intros x [<-|Hx]; [|apply Hub; exact Hx].
        apply Qle_bool_iff in E.
        apply Qle_trans with q; [exact E|]. apply Hub. now left.
    + destruct (IH acc) as (m & Hm & Hin & Hub).
      exists m. split; [exact Hm|]. split.
      * destruct Hin as [<-|Hin]; [now left|right; right; exact Hin].
      * intros x [<-|[<-|Hx]].
        -- apply Hub. now left.
        -- apply Qle_bool_false in E.
           apply Qle_trans with acc; [apply Qlt_le_weak; exact E|].
           apply Hub. now left.
        -- apply Hub. right. exact Hx.
Qed.

Lemma fold_min_finite (l : list Q) : forall acc : Q,
  exists m : Q,
    fold_left (fun a x => min2 a (ToNumber x)) (map Some l) (Finite acc)
      = Finite m
    /\ In m (acc :: l)
    /\ forall x, In x (acc :: l) -> m <= x.
Proof.
  induction l as [|q l IH]; intro acc.
  - exists acc. simpl. split; [reflexivity|]. split; [now left|].
    intros x [<-|[]]. apply Qle_refl.
  - simpl fold_left. simpl min2.
    destruct (Qle_bool acc q) eqn:E.
    + destruct (IH acc) as (m & Hm & Hin & Hlb).
      exists m. split; [exact Hm|]. split.
      * destruct Hin as [<-|Hin]; [now left|right; right; exact Hin].
      * intros x [<-|[<-|Hx]].
        -- apply Hlb. now left.
        -- apply Qle_bool_iff in E.
           apply Qle_trans with acc; [|exact E]. apply Hlb. now left.
        -- apply Hlb. right. exact Hx.
    + destruct (IH q) as (m & Hm & Hin & Hlb).
      exists m. split; [exact Hm|]. split.
      * right. exact Hin.
      * intros x [<-|Hx]; [|apply Hlb; exact Hx].
        apply Qle_bool_false in E.
        apply Qle_trans with q; [apply Hlb; now left|].
        apply Qlt_le_weak. exact E.
Qed.

(** [Math.max] and [Math.min] of a non-empty array of numbers. *)
Lemma Math_max_numbers (l : list Q) :
  l <> [] -> exists m, Math_max (map Some l) = Finite m /\ maximum_of m l.
Proof.
  destruct l as [|q l]; [congruence|]. intros _.
  unfold Math_max. simpl.
  destruct (fold_max_finite l q) as (m & Hm & Hin & Hub).
  exists m. split; [exact Hm|]. split; assumption.
Qed.

Lemma Math_min_numbers (l : list Q) :
  l <> [] -> exists m, Math_min (map Some l) = Finite m /\ minimum_of m l.
Proof.
  destruct l as [|q l]; [congruence|]. intros _.
  unfold Math_min. simpl.
  destruct (fold_min_finite l q) as (m & Hm & Hin & Hlb).
  exists m. split; [exact Hm|]. split; assumption.
Qed.

(** Reading index [i] of coordinates that all have it. *)
Lemma entries_present (i : nat) (coordinates : list (list Q)) :
  Forall (fun c => (i < List.length c)%nat) coordinates ->
  map (fun c => nth_error c i) coordinates
    = map Some (map (fun c => nth i c 0) coordinates).
Proof.
  induction 1 as [|c l Hc _ IH]; [reflexivity|].
  simpl. rewrite IH. f_equal.
  apply nth_error_nth'. exact Hc.
Qed.

End BoundsFacts.

Module CameraFitFacts.
Import Js Statements LiveOrderRoute BoundsFacts.

(** C3. For a non-empty route whose coordinates all carry a longitude and
    a latitude, the camera effect calls [fitBounds] with the north-east
    corner [maximum of the longitudes, maximum of the latitudes] and the
    south-west corner [minimum of the longitudes, minimum of the
    latitudes], the four edge paddings and a duration of 1000; every
    coordinate of the route lies in the box the two corners span. *)
Theorem fitBounds_spans_route (p : Props) (route : list (list Q)) :
  route <> [] ->
  Forall (fun c => (2 <= List.length c)%nat) route ->
  exists east north west south : Q,
    fitBounds_effect p (Some (mkGeometry (Some route))) true
      = Some (mkFitBounds (Finite east, Finite north)
                          (Finite west, Finite south)
                          [edgePaddingTop p; edgePaddingRight p;
                           edgePaddingBottom p; edgePaddingLeft p]
                          1000)
    /\ maximum_of east (longitudes route)
    /\ maximum_of north (latitudes route)
    /\ minimum_of west (longitudes route)
    /\ minimum_of south (latitudes route)
    /\ Forall (fun c => (west <= nth 0 c 0 /\ nth 0 c 0 <= east)
                        /\ (south <= nth 1 c 0 /\ nth 1 c 0 <= north))
              route.
Proof.
  intros Hne Hwf.
  assert (H0 : Forall (fun c => (0 < List.length c)%nat) route).
  { eapply Forall_impl; [|exact Hwf]. simpl. intros; lia. }
  assert (H1 : Forall (fun c => (1 < List.length c)%nat) route).
  { eapply Forall_impl; [|exact Hwf]. simpl. intros; lia. }
  assert (Hlng : longitudes route <> []).
  { unfold longitudes. destruct route; [congruence|discriminate]. }
  assert (Hlat : latitudes route <> []).
  { unfold latitudes. destruct route; [congruence|discriminate]. }
  destruct (Math_max_numbers _ Hlng) as (east & Ee & He).
  destruct (Math_max_numbers _ Hlat) as (north & En & Hn).
  destruct (Math_min_numbers _ Hlng) as (west & Ew & Hw).
  destruct (Math_min_numbers _ Hlat) as (south & Es & Hs).
  exists east, north, west, south.
  split.
  { unfold fitBounds_effect. cbn [coordinates].
    assert (Hlen : (0 <? List.length route)%nat = true).
    { destruct route; [congruence|reflexivity]. }
    rewrite Hlen. unfold route_bounds. cbn [ne sw].
    rewrite (entries_present 0 route H0), (entries_present 1 route H1).
    fold (longitudes route). fold (latitudes route).
    rewrite Ee, En, Ew, Es. reflexivity. }
  do 4 (split; [assumption|]).
  apply Forall_forall. intros c Hc.
  assert (Ilng : In (nth 0 c 0) (longitudes route)).
  { unfold longitudes. apply (in_map (fun c => nth 0 c 0)). exact Hc. }
  assert (Ilat : In (nth 1 c 0) (latitudes route)).
  { unfold latitudes. apply (in_map (fun c => nth 1 c 0)). exact Hc. }
  repeat split.
  - apply Hw. exact Ilng.
  - apply He. exact Ilng.
  - apply Hs. exact Ilat.
  - apply Hn. exact Ilat.
Qed.

Lemma fitBounds_spans_route_witness :
  exists east north west south : Q,
    fitBounds_effect
      (mkProps (mkOrder None None [] Place.IdUndefined None) None None 50 50 50 50
               true false)
      (Some (mkGeometry (Some [[10; 20]; [30; 5]; [-4; 12]]))) true
      = Some (mkFitBounds (Finite east, Finite north)
                          (Finite west, Finite south)
                          [50; 50; 50; 50] 1000)
    /\ maximum_of east (longitudes [[10; 20]; [30; 5]; [-4; 12]])
    /\ maximum_of north (latitudes [[10; 20]; [30; 5]; [-4; 12]])
    /\ minimum_of west (longitudes [[10; 20]; [30; 5]; [-4; 12]])
    /\ minimum_of south (latitudes [[10; 20]; [30; 5]; [-4; 12]])
    /\ Forall (fun c => (west <= nth 0 c 0 /\ nth 0 c 0 <= east)
                        /\ (south <= nth 1 c 0 /\ nth 1 c 0 <= north))
              [[10; 20]; [30; 5]; [-4; 12]].
Proof.
  apply (fitBounds_spans_route
           (mkProps (mkOrder None None [] Place.IdUndefined None) None None 50 50 50 50
                    true false)
           [[10; 20]; [30; 5]; [-4; 12]]).
  - discriminate.
  - repeat constructor.
Defined.

(** The corners of the box on a route of three coordinates. *)
Example route_bounds_three :
  route_bounds [[10; 20]; [30; 5]; [-4; 12]]
  = mkBounds (Finite 30, Finite 20) (Finite (-4), Finite 5).
Proof. reflexivity. Qed.

(** Without coordinates, or without a camera, nothing is fitted. *)
Lemma fitBounds_guards (p : Props) :
  fitBounds_effect p None true = None
  /\ fitBounds_effect p (Some (mkGeometry None)) true = None
  /\ fitBounds_effect p (Some (mkGeometry (Some []))) true = None
  /\ forall g, fitBounds_effect p g false = None.
Proof.
  repeat split. intros [g|]; reflexivity.
Qed.

End CameraFitFacts.

(** ** The directions request *)

Module DirectionsFacts.
Import Statements LiveOrderRoute.
Local Open Scope string_scope.

Lemma append_assoc (a b c : string) : (a ++ b) ++ c = a ++ (b ++ c).
Proof.
  induction a as [|ch a IH]; simpl; [reflexivity|]. now rewrite IH.
Qed.

Section Request.

Variable Number_toString : Q -> string.
Variable MAPBOX_ACCESS_TOKEN : string.
Variable fetch : string -> Js.completion Response.
Variable coerced_gt_zero : Js.value -> Js.completion bool.

Lemma render_lng_lat (c : Place.Coords) :
  render Number_toString c = lng_lat Number_toString c.
Proof. reflexivity. Qed.

(** Joining a head, the waypoints and the destination by semicolons. *)
Lemma join_waypoints (destination : string)
    (waypoints : list MiddleWaypoint) : forall head : string,
  Js.join ";"
    (head :: map (fun wp => render Number_toString (coordinate wp)) waypoints
          ++ [destination])
  = head ++ waypoint_run Number_toString waypoints ++ ";" ++ destination.
Proof.
  induction waypoints as [|wp rest IH]; intro head.
  - reflexivity.
  - cbn [map app]. change (Js.join ";" (head :: ?x :: ?l))
      with (head ++ ";" ++ Js.join ";" (x :: l)).
    rewrite IH. cbn [waypoint_run]. rewrite render_lng_lat.
    rewrite !append_assoc. reflexivity.
Qed.

(** C5. The coordinate list of the directions request holds the origin
    first, then the waypoints in their given order, then the destination
    last; each coordinate is rendered as longitude, comma, latitude, and
    consecutive coordinates are joined by a semicolon.  The request goes to
    the URL built around this list. *)
Theorem directions_coordinates_order (origin destination : Place.Coords)
    (waypoints : list MiddleWaypoint) :
  let parts :=
    coordinate_parts Number_toString origin destination waypoints in
  parts = lng_lat Number_toString origin
          :: map (fun wp => lng_lat Number_toString (coordinate wp)) waypoints
          ++ [lng_lat Number_toString destination]
  /\ nth_error parts 0 = Some (lng_lat Number_toString origin)
  /\ (forall i : nat,
        nth_error parts (S i) =
          match nth_error waypoints i with
          | Some wp => Some (lng_lat Number_toString (coordinate wp))
          | None =>
              if (i =? List.length waypoints)%nat
              then Some (lng_lat Number_toString destination)
              else None
          end)
  /\ List.length parts = (List.length waypoints + 2)%nat
  /\ directions_coordinates Number_toString origin destination waypoints
     = request_coordinates Number_toString origin destination waypoints
  /\ directions_url Number_toString MAPBOX_ACCESS_TOKEN
       origin destination waypoints
     = "https://api.mapbox.com/directions/v5/mapbox/driving/"
         ++ request_coordinates Number_toString origin destination waypoints
         ++ "?geometries=geojson&access_token=" ++ MAPBOX_ACCESS_TOKEN
  /\ fetchDirections Number_toString MAPBOX_ACCESS_TOKEN fetch
       coerced_gt_zero origin destination waypoints
     = fetchDirections Number_toString MAPBOX_ACCESS_TOKEN
         (fun _ => fetch (directions_url Number_toString MAPBOX_ACCESS_TOKEN
                            origin destination waypoints))
         coerced_gt_zero origin destination waypoints.
Proof.
  cbv zeta. unfold coordinate_parts. cbn [app].
  split; [reflexivity|].
  split; [reflexivity|].
  split.
  { intro i. cbn [nth_error].
    rewrite nth_error_app, length_map, nth_error_map.
    destruct (Nat.ltb_spec i (List.length waypoints)) as [Hlt|Hge].
    - destruct (nth_error waypoints i) as [wp|] eqn:E; [reflexivity|].
      apply nth_error_None in E. lia.
    - assert (E : nth_error waypoints i = None)
        by (apply nth_error_None; exact Hge).
      rewrite E.
      destruct (Nat.eqb_spec i (List.length waypoints)) as [->|Hne].
      + rewrite Nat.sub_diag. reflexivity.
      + destruct (i - List.length waypoints)%nat as [|k] eqn:K; [lia|].
        destruct k; reflexivity. }
  split.
  { cbn [List.length]. rewrite length_app, length_map. cbn [List.length]. lia. }
  assert (Hjoin :
    directions_coordinates Number_toString origin destination waypoints
    = request_coordinates Number_toString origin destination waypoints).
  { unfold directions_coordinates, coordinate_parts, request_coordinates.
    cbn [app]. rewrite join_waypoints. reflexivity. }
  split; [exact Hjoin|].
  split.
  { unfold directions_url. rewrite Hjoin. reflexivity. }
  reflexivity.
Qed.

(** The request for one waypoint between origin and destination, with a
    rendering of numbers that covers the three small integers used. *)
Example request_coordinates_sample :
  let show (q : Q) :=
    if Qeq_bool q 1 then "1" else if Qeq_bool q 2 then "2" else "3" in
  directions_coordinates show (Place.mkCoords 1 2) (Place.mkCoords 3 1)
    [mkMiddleWaypoint (Place.mkCoords 2 3) 0%nat]
  = "2,1;3,2;1,3".
Proof. reflexivity. Qed.

End Request.

End DirectionsFacts.

(** ** What [fetchDirections] returns *)

Module FetchFacts.
Import Statements LiveOrderRoute.
Local Open Scope string_scope.

Section Fetch.

Variable Number_toString : Q -> string.
Variable MAPBOX_ACCESS_TOKEN : string.
Variable fetch : string -> Js.completion Response.
Variable coerced_gt_zero : Js.value -> Js.completion bool.

Local Abbreviation fetchDirections' :=
  (fetchDirections Number_toString MAPBOX_ACCESS_TOKEN fetch coerced_gt_zero).
Local Abbreviation url' :=
  (directions_url Number_toString MAPBOX_ACCESS_TOKEN).

(** Whatever happens inside the [try] block, the promise is fulfilled. *)
Lemma fetchDirections_fulfilled origin destination waypoints :
  exists v : Js.value,
    fetchDirections' origin destination waypoints = Js.Normal v.
Proof.
  unfold fetchDirections.
  destruct (fetchDirections_try fetch coerced_gt_zero
              (url' origin destination waypoints)) as [[g|]|e];
    cbn; eauto.
Qed.

(** The length of a non-empty array is above zero. *)
Lemma length_gt_zero (route : Js.value) (rest : list Js.value) :
  Js.bind (Js.get (Js.Array (route :: rest)) "length")
          (Js.gt_zero coerced_gt_zero)
  = Js.Normal true.
Proof.
  reflexivity.
Qed.

Lemma try_on_routes response data routes :
  json response = Js.Normal data ->
  Js.get data "routes" = Js.Normal routes ->
  forall u, fetch u = Js.Normal response ->
  fetchDirections_try fetch coerced_gt_zero u =
    Js.bind
      (if Js.truthy routes
       then Js.bind (Js.get routes "length") (Js.gt_zero coerced_gt_zero)
       else Js.Normal false)
      (fun guard : bool =>
         if guard
         then Js.bind (Js.get_first routes)
                (fun route =>
                   Js.bind (Js.get route "geometry")
                     (fun geometry => Js.Normal (Some geometry)))
         else Js.Normal None).
Proof.
  intros Hjson Hroutes u Hfetch. unfold fetchDirections_try.
  rewrite Hfetch. cbn [Js.bind]. rewrite Hjson. cbn [Js.bind].
  rewrite Hroutes. cbn [Js.bind]. reflexivity.
Qed.

(** C4, as the code has it. [fetchDirections] never throws: its promise is
    always fulfilled.  It returns the geometry of the first route when the
    parsed response holds a non-empty routes array whose first element is
    not null; it returns null when the fetch fails, when the parsing of
    the body fails, when the body is null, when the routes are absent,
    null or an empty array, and when the first route is null. *)
Theorem fetchDirections_returns (origin destination : Place.Coords)
    (waypoints : list MiddleWaypoint) :
  (exists v : Js.value,
     fetchDirections' origin destination waypoints = Js.Normal v)
  /\ (forall geometry : Js.value,
        returns_geometry (fetch (url' origin destination waypoints)) geometry ->
        fetchDirections' origin destination waypoints = Js.Normal geometry)
  /\ (returns_null (fetch (url' origin destination waypoints)) ->
      fetchDirections' origin destination waypoints = Js.Normal Js.Null).
Proof.
  split; [apply fetchDirections_fulfilled|].
  split.
  - intros geometry Hg. inversion Hg as [outcome route rest g Hr Hget Ho Hgeo].
    subst. inversion Hr as [response data routes Hjson Hroutes Hout Hrs].
    subst. unfold fetchDirections.
    rewrite (try_on_routes _ _ _ Hjson Hroutes _ (eq_sym Hout)).
    cbn [Js.truthy]. rewrite length_gt_zero. cbn [Js.bind Js.get_first nth].
    rewrite Hget. reflexivity.
  - intro Hnull. unfold fetchDirections.
    inversion Hnull as
      [ e Hout
      | response e Hjson Hout
      | response Hjson Hout
      | outcome Hr Hout
      | outcome Hr Hout
      | outcome Hr Hout
      | outcome rest Hr Hout ].
    + unfold fetchDirections_try. rewrite <- Hout. reflexivity.
    + unfold fetchDirections_try. rewrite <- Hout. cbn [Js.bind].
      rewrite Hjson. reflexivity.
    + unfold fetchDirections_try. rewrite <- Hout. cbn [Js.bind].
      rewrite Hjson. reflexivity.
    + inversion Hr as [response data routes Hjson Hroutes Ho Hrs].
      rewrite (try_on_routes _ _ _ Hjson Hroutes _ (eq_sym Ho)). reflexivity.
    + inversion Hr as [response data routes Hjson Hroutes Ho Hrs].
      rewrite (try_on_routes _ _ _ Hjson Hroutes _ (eq_sym Ho)). reflexivity.
    + inversion Hr as [response data routes Hjson Hroutes Ho Hrs].
      rewrite (try_on_routes _ _ _ Hjson Hroutes _ (eq_sym Ho)). reflexivity.
    + inversion Hr as [response data routes Hjson Hroutes Ho Hrs].
      rewrite (try_on_routes _ _ _ Hjson Hroutes _ (eq_sym Ho)).
      cbn [Js.truthy]. rewrite length_gt_zero. reflexivity.
Qed.

End Fetch.

Lemma fetchDirections_returns_witness :
  fetchDirections (fun _ => "0") "token"
    (fun _ =>
       Js.Normal
         (mkResponse
            (Js.Normal
               (Js.Object
                  [("routes",
                    Js.Array [Js.Object [("geometry", Js.Str "line")]])]))))
    (fun _ => Js.Normal false)
    (Place.mkCoords 1 2) (Place.mkCoords 3 4) []
  = Js.Normal (Js.Str "line")
  /\ fetchDirections (fun _ => "0") "token"
       (fun _ => Js.Throw Js.FetchRejected)
       (fun _ => Js.Normal false)
       (Place.mkCoords 1 2) (Place.mkCoords 3 4) []
     = Js.Normal Js.Null.
Proof.
  split.
  - apply (proj1 (proj2 (fetchDirections_returns _ _ _ _ _ _ _))).
    apply first_route_geometry
      with (route := Js.Object [("geometry", Js.Str "line")]) (rest := []).
    + eapply routes_parsed; reflexivity.
    + reflexivity.
  - apply (proj2 (proj2 (fetchDirections_returns _ _ _ _ _ _ _))).
    apply fetch_fails.
Defined.

(** A response whose routes array is not empty and starts with [null]:
    reading the geometry of the first route throws inside the [try]
    block, and [null] is returned. *)
Lemma fetchDirections_null_first_route :
  let body := Js.Object [("routes", Js.Array [Js.Null])] in
  let result :=
    fetchDirections (fun _ => "0") "token"
      (fun _ => Js.Normal (mkResponse (Js.Normal body)))
      (fun _ => Js.Normal false)
      (Place.mkCoords 1 2) (Place.mkCoords 3 4) [] in
  Js.get body "routes" = Js.Normal (Js.Array [Js.Null])
  /\ result = Js.Normal Js.Null
  /\ ~ (exists geometry,
          Js.get Js.Null "geometry" = Js.Normal geometry
          /\ result = Js.Normal geometry).
Proof.
  cbv zeta. split; [reflexivity|]. split; [reflexivity|].
  intros (geometry & Hget & _). discriminate Hget.
Qed.

(** Routes that are a non-empty string pass the guard as well; the first
    character has no geometry, and [undefined] is returned. *)
Lemma fetchDirections_string_routes :
  fetchDirections (fun _ => "0") "token"
    (fun _ =>
       Js.Normal
         (mkResponse (Js.Normal (Js.Object [("routes", Js.Str "none")]))))
    (fun _ => Js.Normal false)
    (Place.mkCoords 1 2) (Place.mkCoords 3 4) []
  = Js.Normal Js.Undefined.
Proof. reflexivity. Qed.

End FetchFacts.

(** ** The ends of the route and the middle waypoints *)

Module RouteFacts.
Import Place LiveOrderRoute.

Lemma strict_eq_true (a b : ref) : strict_eq a b = true <-> a = b.
Proof.
  destruct a as [x|], b as [y|]; simpl; split; intro H;
    try discriminate; try reflexivity.
  - apply Nat.eqb_eq in H. now subst.
  - injection H as ->. apply Nat.eqb_refl.
Qed.

Lemma strict_neq_true (a b : ref) : strict_neq a b = true <-> a <> b.
Proof.
  unfold strict_neq. rewrite negb_true_iff, <- not_true_iff_false.
  now rewrite strict_eq_true.
Qed.

Lemma nonempty_length {A} (l : list A) :
  (0 <? List.length l)%nat = true <-> l <> [].
Proof.
  destruct l; simpl; split; intro H;
    try reflexivity; try discriminate.
  exfalso. apply H. reflexivity.
Qed.

(** [slice(1, -1)] drops the first and the last element. *)
Lemma slice_middle {A} (l : list A) : Js.slice l 1 (-1) = removelast (tl l).
Proof.
  unfold Js.slice, Js.relative_index.
  destruct l as [|x t]; [reflexivity|].
  cbn [Z.ltb Z.compare tl].
  replace (Nat.min (Z.to_nat 1) (List.length (x :: t))) with 1%nat
    by (cbn [List.length]; lia).
  replace (Z.to_nat (Z.max (Z.of_nat (List.length (x :: t)) + -1) 0))
    with (List.length t) by (cbn [List.length]; lia).
  cbn [skipn]. rewrite removelast_firstn_len.
  f_equal. lia.
Qed.

Lemma removelast_tl_length {A} (l : list A) :
  List.length (removelast (tl l)) = (List.length l - 2)%nat.
Proof.
  rewrite removelast_firstn_len, length_firstn.
  destruct l as [|x t]; simpl; lia.
Qed.

Section Route.

Variable restoreFleetbasePlace : ref -> ref.
Variable getCoordinates : ref -> Q * Q.
Variable getDriverLocationAsPlace : ref.
Variable newPlace : ref -> obj.
Variable id_of : obj -> id_value.
Variable own_coordinate : obj -> option Coords.

(** C8. With [focusCurrentDestination] false, the route starts at the
    restored start waypoint and ends at the restored end waypoint.  The
    start waypoint is the first waypoint when the order has no pickup and
    the waypoint list is not empty, and the pickup otherwise; the end
    waypoint is the last waypoint when the order has no dropoff, the list
    is not empty and its last element is not its first, and the dropoff
    otherwise. *)
Theorem route_start_and_end (p : Props) :
  focusCurrentDestination p = false ->
  start restoreFleetbasePlace getDriverLocationAsPlace p
    = restoreFleetbasePlace (startWaypoint (order p))
  /\ end_ restoreFleetbasePlace newPlace id_of p
     = restoreFleetbasePlace (endWaypoint (order p))
  /\ (pickup (order p) = None -> waypoints (order p) <> [] ->
      startWaypoint (order p) = first (waypoints (order p)))
  /\ (pickup (order p) <> None \/ waypoints (order p) = [] ->
      startWaypoint (order p) = pickup (order p))
  /\ (dropoff (order p) = None -> waypoints (order p) <> [] ->
      last (waypoints (order p)) <> first (waypoints (order p)) ->
      endWaypoint (order p) = last (waypoints (order p)))
  /\ (dropoff (order p) <> None \/ waypoints (order p) = []
      \/ last (waypoints (order p)) = first (waypoints (order p)) ->
      endWaypoint (order p) = dropoff (order p)).
Proof.
  intro Hfocus. unfold start, end_. rewrite Hfocus.
  split; [reflexivity|]. split; [reflexivity|].
  unfold startWaypoint, endWaypoint.
  split; [|split; [|split]].
  - intros Hp Hw. rewrite Hp. apply nonempty_length in Hw. rewrite Hw.
    reflexivity.
  - intros [Hp|Hw].
    + destruct (pickup (order p)); [reflexivity|congruence].
    + rewrite Hw. cbn. now rewrite andb_false_r.
  - intros Hd Hw Hneq. rewrite Hd.
    apply nonempty_length in Hw. rewrite Hw.
    apply strict_neq_true in Hneq. rewrite Hneq. reflexivity.
  - intros [Hd|[Hw|Heq]].
    + destruct (dropoff (order p)); [reflexivity|congruence].
    + rewrite Hw. cbn. now rewrite andb_false_r.
    + destruct (strict_neq _ _) eqn:E.
      * apply strict_neq_true in E. contradiction.
      * now rewrite andb_false_r.
Qed.

(** C9. The middle waypoints are built from the waypoint list without its
    first and its last element, and there are none when
    [focusCurrentDestination] is true or the list has at most two
    elements.  The marker size is [xxs] for more than three middle
    waypoints, [xs] for one to three, and the [markerSize] prop (its
    default when it is not given) for none. *)
Theorem middle_waypoints_and_marker_size (p : Props) :
  let middle := middleWaypoints getCoordinates own_coordinate p in
  let size := finalMarkerSize getCoordinates own_coordinate p in
  map spread_of middle
    = (if focusCurrentDestination p
       then []
       else removelast (tl (waypoints (order p))))
  /\ (focusCurrentDestination p = true
      \/ (List.length (waypoints (order p)) <= 2)%nat ->
      middle = [])
  /\ ((3 < List.length middle)%nat -> size = xxs)
  /\ ((1 <= List.length middle)%nat /\ (List.length middle <= 3)%nat ->
      size = xs)
  /\ (middle = [] ->
      size = match markerSize p with
             | Some s => s
             | None => default_markerSize
             end).
Proof.
  cbv zeta.
  assert (Hmap :
    map spread_of (middleWaypoints getCoordinates own_coordinate p)
    = if focusCurrentDestination p
      then []
      else removelast (tl (waypoints (order p)))).
  { unfold middleWaypoints. destruct (focusCurrentDestination p);
      [reflexivity|].
    rewrite map_map. cbn [decorate spread_of]. rewrite map_id.
    apply slice_middle. }
  split; [exact Hmap|].
  split.
  { intros [Hf|Hlen].
    - unfold middleWaypoints. now rewrite Hf.
    - apply (f_equal (@List.length obj)) in Hmap.
      rewrite length_map in Hmap.
      destruct (focusCurrentDestination p) eqn:Hf.
      + unfold middleWaypoints. now rewrite Hf.
      + rewrite removelast_tl_length in Hmap.
        apply length_zero_iff_nil. lia. }
  unfold finalMarkerSize.
  split; [|split].
  - intro H. destruct (Nat.ltb_spec 0
      (List.length (middleWaypoints getCoordinates own_coordinate p)));
      [|lia].
    destruct (Nat.ltb_spec 3
      (List.length (middleWaypoints getCoordinates own_coordinate p)));
      [reflexivity|lia].
  - intros [H1 H3]. destruct (Nat.ltb_spec 0
      (List.length (middleWaypoints getCoordinates own_coordinate p)));
      [|lia].
    destruct (Nat.ltb_spec 3
      (List.length (middleWaypoints getCoordinates own_coordinate p)));
      [lia|reflexivity].
  - intro H. rewrite H. reflexivity.
Qed.

End Route.

Lemma route_start_and_end_witness :
  let restore (r : ref) := r in
  let no_pickup :=
    mkProps (mkOrder None None [1; 2; 3]%nat Place.IdUndefined None) None None
            50 50 50 50 true false in
  let with_ends :=
    mkProps (mkOrder (Some 7%nat) (Some 9%nat) [1; 2; 3]%nat Place.IdUndefined None)
            None None 50 50 50 50 true false in
  (start restore None no_pickup = Some 1%nat
   /\ end_ restore (fun _ => 0%nat) (fun _ => IdUndefined) no_pickup = Some 3%nat)
  /\ (start restore None with_ends = Some 7%nat
      /\ end_ restore (fun _ => 0%nat) (fun _ => IdUndefined) with_ends
         = Some 9%nat).
Proof.
  cbv zeta. split.
  - destruct (route_start_and_end (fun r => r) None (fun _ => 0%nat)
                (fun _ => IdUndefined)
                (mkProps (mkOrder None None [1; 2; 3]%nat Place.IdUndefined None)
                         None None 50 50 50 50 true false) eq_refl)
      as (Hs & He & Hfirst & _ & Hlast & _).
    rewrite Hs, He. split.
    + rewrite Hfirst; [reflexivity|reflexivity|discriminate].
    + rewrite Hlast; [reflexivity|reflexivity|discriminate|discriminate].
  - destruct (route_start_and_end (fun r => r) None (fun _ => 0%nat)
                (fun _ => IdUndefined)
                (mkProps
                   (mkOrder (Some 7%nat) (Some 9%nat) [1; 2; 3]%nat Place.IdUndefined None)
                   None None 50 50 50 50 true false) eq_refl)
      as (Hs & He & _ & Hpickup & _ & Hdropoff).
    rewrite Hs, He. split.
    + rewrite Hpickup; [reflexivity|left; discriminate].
    + rewrite Hdropoff; [reflexivity|left; discriminate].
Defined.

(** A single waypoint is both the first and the last one: without a
    dropoff the route then ends at the missing dropoff. *)
Example end_of_single_waypoint :
  endWaypoint (mkOrder None None [4%nat] Place.IdUndefined None) = None
  /\ startWaypoint (mkOrder None None [4%nat] Place.IdUndefined None) = Some 4%nat.
Proof. split; reflexivity. Qed.

Lemma middle_waypoints_and_marker_size_witness :
  let coords (_ : ref) := (0, 0) in
  let plain (_ : obj) := @None Coords in
  let props (waypoints : list obj) :=
    mkProps (mkOrder None None waypoints Place.IdUndefined None) None None
            50 50 50 50 true false in
  finalMarkerSize coords plain (props [1; 2; 3; 4; 5; 6]%nat) = xxs
  /\ finalMarkerSize coords plain (props [1; 2; 3]%nat) = xs
  /\ finalMarkerSize coords plain (props [1; 2]%nat) = sm
  /\ middleWaypoints coords plain (props [1; 2]%nat) = [].
Proof.
  cbv zeta. split; [|split; [|split]].
  - apply (middle_waypoints_and_marker_size (fun _ => (0, 0)) (fun _ => None)
             (mkProps (mkOrder None None [1; 2; 3; 4; 5; 6]%nat Place.IdUndefined None)
                      None None 50 50 50 50 true false)).
    simpl. lia.
  - apply (middle_waypoints_and_marker_size (fun _ => (0, 0)) (fun _ => None)
             (mkProps (mkOrder None None [1; 2; 3]%nat Place.IdUndefined None)
                      None None 50 50 50 50 true false)).
    simpl. lia.
  - apply (middle_waypoints_and_marker_size (fun _ => (0, 0)) (fun _ => None)
             (mkProps (mkOrder None None [1; 2]%nat Place.IdUndefined None)
                      None None 50 50 50 50 true false)).
    reflexivity.
  - apply (middle_waypoints_and_marker_size (fun _ => (0, 0)) (fun _ => None)
             (mkProps (mkOrder None None [1; 2]%nat Place.IdUndefined None)
                      None None 50 50 50 50 true false)).
    right. simpl. lia.
Defined.

End RouteFacts.

(** ** The coordinate-editing screen *)

Module EditLocationFacts.
Import Place EditLocationCoordScreen Statements.

Section Screen.

Variable restoreFleetbasePlace : ref -> ref.
Variable getCoordinates : ref -> Q * Q.
Variable params_place : ref.
Variable place_isNew : bool.
Variable redirectTo : string.

Local Abbreviation original :=
  (original restoreFleetbasePlace getCoordinates params_place).
Local Abbreviation timers_hold_original :=
  (timers_hold_original restoreFleetbasePlace getCoordinates params_place).

Lemma run_app (st : State) (es es' : list Event) :
  run restoreFleetbasePlace getCoordinates params_place st (es ++ es')
  = run restoreFleetbasePlace getCoordinates params_place
      (run restoreFleetbasePlace getCoordinates params_place st es) es'.
Proof. apply fold_left_app. Qed.

Lemma initial_centre :
  centerCoordinate (initial restoreFleetbasePlace getCoordinates params_place)
  = original.
Proof.
  unfold initial, Statements.original.
  destruct (getCoordinates (place restoreFleetbasePlace params_place)).
  reflexivity.
Qed.

Lemma step_keeps_timers (st : State) (e : Event) :
  timers_hold_original st ->
  timers_hold_original
    (step restoreFleetbasePlace getCoordinates params_place st e).
Proof.
  unfold Statements.timers_hold_original. intro H.
  destruct e as [| |f|f|cam|]; cbn [step].
  - exact H.
  - exact H.
  - unfold handleRegionChange.
    destruct (properties f) as [pr|]; [|exact H].
    destruct (isUserInteraction pr); exact H.
  - unfold handleRegionChangeComplete.
    destruct (geometry f) as [g|]; [|exact H].
    destruct (coordinates g); exact H.
  - unfold handleReset, Statements.original in *.
    destruct (getCoordinates (place restoreFleetbasePlace params_place))
      as [lat lng].
    cbn [fst timers setIsPanning] in *.
    apply Forall_app. split; [exact H|]. constructor; [reflexivity|constructor].
  - unfold timer_fired. destruct (timers st) as [|c rest] eqn:E; [now rewrite E|].
    cbn [timers]. now inversion H.
Qed.

Lemma run_keeps_timers (es : list Event) : forall st : State,
  timers_hold_original st ->
  timers_hold_original
    (run restoreFleetbasePlace getCoordinates params_place st es).
Proof.
  induction es as [|e es IH]; intros st H; [exact H|].
  cbn [run fold_left]. apply IH. apply step_keeps_timers. exact H.
Qed.

(** A reset and the firing of a timer bring the picked coordinate back,
    from every state whose timers hold the stored coordinates. *)
Lemma reset_then_timer (st : State) (cam : bool) :
  timers_hold_original st ->
  centerCoordinate
    (run restoreFleetbasePlace getCoordinates params_place st
       [ResetPressed cam; TimerFired])
  = original.
Proof.
  intro H.
  pose proof (step_keeps_timers st (ResetPressed cam) H) as H'.
  cbn [run fold_left]. cbn [step] in *.
  unfold timer_fired.
  assert (Hne : timers (fst (handleReset restoreFleetbasePlace getCoordinates
                               params_place cam st)) <> []).
  { unfold handleReset.
    destruct (getCoordinates (place restoreFleetbasePlace params_place)).
    cbn [fst timers]. destruct (timers (setIsPanning true st)); discriminate. }
  unfold Statements.timers_hold_original in H'.
  destruct (timers (fst (handleReset restoreFleetbasePlace getCoordinates
                           params_place cam st))) as [|c rest];
    [congruence|].
  cbn [centerCoordinate]. now inversion H'.
Qed.

(** C10. The screen opens on the place's stored coordinates as the pair
    [longitude, latitude].  After any events (pannings, idle updates,
    earlier resets), a reset whose timer has fired leaves the picked
    coordinate at these stored coordinates again, and moves the camera
    there when the camera ref is set. *)
Theorem reset_restores_original (events : list Event) (cam : bool) :
  let opened := initial restoreFleetbasePlace getCoordinates params_place in
  centerCoordinate opened = original
  /\ original
     = (snd (getCoordinates (place restoreFleetbasePlace params_place)),
        fst (getCoordinates (place restoreFleetbasePlace params_place)))
  /\ centerCoordinate
       (run restoreFleetbasePlace getCoordinates params_place opened
          (events ++ [ResetPressed cam; TimerFired]))
     = centerCoordinate opened
  /\ snd (handleReset restoreFleetbasePlace getCoordinates params_place cam
            (run restoreFleetbasePlace getCoordinates params_place opened
               events))
     = (if cam then Some (mkCameraStop original 17 500) else None).
Proof.
  cbv zeta. split; [apply initial_centre|].
  split.
  { unfold Statements.original.
    destruct (getCoordinates (place restoreFleetbasePlace params_place)).
    reflexivity. }
  split.
  { rewrite run_app, initial_centre. apply reset_then_timer.
    apply run_keeps_timers. unfold Statements.timers_hold_original, initial.
    destruct (getCoordinates (place restoreFleetbasePlace params_place)).
    constructor. }
  unfold handleReset, Statements.original.
  destruct (getCoordinates (place restoreFleetbasePlace params_place)).
  destruct cam; reflexivity.
Qed.

(** The calls of [handleSave] store one location or two, and each is the
    point built from the picked pair with the latitude first. *)
Lemma handleSave_locations (out : SaveOutcome) (st : State) :
  let location :=
    newPoint (snd (centerCoordinate st)) (fst (centerCoordinate st)) in
  stored_locations (handleSave place_isNew redirectTo out st) = [location]
  \/ stored_locations (handleSave place_isNew redirectTo out st)
     = [location; location].
Proof.
  cbv zeta. unfold handleSave.
  destruct (centerCoordinate st) as [lng lat]. cbn [fst snd].
  unfold save_new, save_update, handleRedirect.
  destruct place_isNew, out as [[|] [|] [|] [|] [|]];
    destruct (String.eqb redirectTo "AddressBook");
    cbn; auto.
Qed.

(** C7, as the code has it.  When the map becomes idle, the picked centre
    becomes the geometry coordinates of the event, a [lng, lat] pair, when
    the event carries them, and stays as it was when it does not;
    [handleSave] stores the picked centre as the point built with the
    latitude first and the longitude second: every location it hands to
    the place is [Point(lat, lng)] of the picked centre, and it hands over
    at least one. *)
Theorem idle_then_save (st : State) (feature : Feature) (out : SaveOutcome) :
  let idle := handleRegionChangeComplete feature st in
  let location :=
    newPoint (snd (centerCoordinate idle)) (fst (centerCoordinate idle)) in
  centerCoordinate idle
    = match geometry feature with
      | Some g =>
          match coordinates g with
          | Some c => c
          | None => centerCoordinate st
          end
      | None => centerCoordinate st
      end
  /\ Forall (fun stored => stored = location)
            (stored_locations (handleSave place_isNew redirectTo out idle))
  /\ stored_locations (handleSave place_isNew redirectTo out idle) <> []
  /\ hd_error (handleSave place_isNew redirectTo out idle)
     = Some (if place_isNew
             then SetAttribute "location" location
             else Update location)
  /\ point_latitude location = snd (centerCoordinate idle)
  /\ point_longitude location = fst (centerCoordinate idle).
Proof.
  cbv zeta.
  set (idle := handleRegionChangeComplete feature st).
  split.
  { unfold idle, handleRegionChangeComplete.
    destruct (geometry feature) as [g|]; [|reflexivity].
    destruct (coordinates g); reflexivity. }
  pose proof (handleSave_locations out idle) as Hl. cbv zeta in Hl.
  split.
  { destruct Hl as [-> | ->]; repeat constructor. }
  split.
  { destruct Hl as [-> | ->]; discriminate. }
  split.
  { unfold handleSave. destruct (centerCoordinate idle) as [lng lat].
    cbn [fst snd]. unfold save_new, save_update.
    destruct place_isNew, out as [[|] [|] [|] [|] [|]]; reflexivity. }
  split; reflexivity.
Qed.

End Screen.

(** Two idle updates and a reset on a place stored at latitude 48,
    longitude 2. *)
Example reset_after_panning :
  let getCoordinates (_ : ref) := (48, 2) in
  let idle (lng lat : Q) :=
    MapIdle (mkFeature None (Some (mkGeometry (Some (lng, lat))))) in
  centerCoordinate
    (run (fun r => r) getCoordinates None
       (initial (fun r => r) getCoordinates None)
       [TouchStart; idle 3 49; TouchEnd; idle 4 50]) = (4, 50)
  /\ centerCoordinate
       (run (fun r => r) getCoordinates None
          (initial (fun r => r) getCoordinates None)
          [TouchStart; idle 3 49; TouchEnd; idle 4 50;
           ResetPressed true; TimerFired]) = (2, 48).
Proof. split; reflexivity. Qed.

(** The map comes to rest on a new centre and reports an event without
    geometry: the picked centre stays, and what is saved is the centre
    picked before, not the centre of the map. *)
Lemma save_after_idle_without_geometry :
  let st := mkState (2, 48) false [] in
  let rest := mkMapAtRest (3, 49) (mkFeature None None) in
  let idle := handleRegionChangeComplete (reported rest) st in
  centerCoordinate idle = (2, 48)
  /\ stored_locations
       (handleSave false "Home"
          (mkSaveOutcome false false false false false) idle)
     = [newPoint 48 2]
  /\ newPoint 48 2
     <> newPoint (snd (map_centre rest)) (fst (map_centre rest)).
Proof.
  cbv zeta. split; [reflexivity|]. split; [reflexivity|].
  cbn. intro H. discriminate H.
Qed.

(** An idle event without geometry leaves the picked centre as it was. *)
Lemma idle_without_geometry (st : State) (props : option Properties) :
  centerCoordinate (handleRegionChangeComplete (mkFeature props None) st)
  = centerCoordinate st.
Proof. reflexivity. Qed.

End EditLocationFacts.

(** ** The rotation of the marker, beyond one turn *)

Module RotationFacts.
Import JsNumber JsNumberFacts TrackingMarker.


End RotationFacts.

(** ** The camera box on arbitrary routes *)

Module BoxFacts.
Import Js Statements LiveOrderRoute BoundsFacts.

Lemma max2_NaN_r (a : num) : max2 a NaN = NaN.
Proof. destruct a; reflexivity. Qed.

Lemma min2_NaN_r (a : num) : min2 a NaN = NaN.
Proof. destruct a; reflexivity. Qed.

Lemma max2_finite_NaN (a : num) (q : Q) : max2 a (Finite q) = NaN <-> a = NaN.
Proof. destruct a; simpl; split; intro H; congruence. Qed.

Lemma min2_finite_NaN (a : num) (q : Q) : min2 a (Finite q) = NaN <-> a = NaN.
Proof. destruct a; simpl; split; intro H; congruence. Qed.

Lemma fold_max_NaN (args : list (option Q)) : forall acc : num,
  fold_left (fun a x => max2 a (ToNumber x)) args acc = NaN
  <-> acc = NaN \/ In None args.
Proof.
  induction args as [|x args IH]; intro acc; cbn [fold_left In].
  - tauto.
  - rewrite IH. destruct x as [q|]; cbn [ToNumber].
    + rewrite max2_finite_NaN. split; intros [H|H]; auto.
      destruct H as [H|H]; [discriminate|auto].
    + rewrite max2_NaN_r. split; intro H; auto.
Qed.

Lemma fold_min_NaN (args : list (option Q)) : forall acc : num,
  fold_left (fun a x => min2 a (ToNumber x)) args acc = NaN
  <-> acc = NaN \/ In None args.
Proof.
  induction args as [|x args IH]; intro acc; cbn [fold_left In].
  - tauto.
  - rewrite IH. destruct x as [q|]; cbn [ToNumber].
    + rewrite min2_finite_NaN. split; intros [H|H]; auto.
      destruct H as [H|H]; [discriminate|auto].
    + rewrite min2_NaN_r. split; intro H; auto.
Qed.

Lemma Math_max_NaN (args : list (option Q)) :
  Math_max args = NaN <-> In None args.
Proof.
  unfold Math_max. rewrite fold_max_NaN. split; [intros [H|H]|]; auto.
  discriminate.
Qed.

Lemma Math_min_NaN (args : list (option Q)) :
  Math_min args = NaN <-> In None args.
Proof.
  unfold Math_min. rewrite fold_min_NaN. split; [intros [H|H]|]; auto.
  discriminate.
Qed.

Lemma missing_entry (i : nat) (route : list (list Q)) :
  In None (map (fun c => nth_error c i) route)
  <-> Exists (fun c => (List.length c <= i)%nat) route.
Proof.
  rewrite in_map_iff, Exists_exists. split.
  - intros (c & Hn & Hc). exists c. split; [exact Hc|].
    apply nth_error_None. exact Hn.
  - intros (c & Hc & Hn). exists c. split; [|exact Hc].
    apply nth_error_None. exact Hn.
Qed.

(** A corner of the box is [NaN] in its longitude exactly when some
    coordinate of the route is empty, and in its latitude exactly when
    some coordinate has fewer than two entries; both corners are affected
    alike. *)
Theorem route_bounds_NaN (route : list (list Q)) :
  (fst (ne (route_bounds route)) = NaN
   <-> Exists (fun c => (List.length c <= 0)%nat) route)
  /\ (fst (sw (route_bounds route)) = NaN
      <-> Exists (fun c => (List.length c <= 0)%nat) route)
  /\ (snd (ne (route_bounds route)) = NaN
      <-> Exists (fun c => (List.length c <= 1)%nat) route)
  /\ (snd (sw (route_bounds route)) = NaN
      <-> Exists (fun c => (List.length c <= 1)%nat) route).
Proof.
  unfold route_bounds. cbn [ne sw fst snd].
  rewrite !Math_max_NaN, !Math_min_NaN, !missing_entry. tauto.
Qed.

Lemma bounds_of_route (route : list (list Q)) :
  route <> [] ->
  Forall (fun c => (2 <= List.length c)%nat) route ->
  exists east north west south : Q,
    route_bounds route
      = mkBounds (Finite east, Finite north) (Finite west, Finite south)
    /\ maximum_of east (longitudes route)
    /\ maximum_of north (latitudes route)
    /\ minimum_of west (longitudes route)
    /\ minimum_of south (latitudes route).
Proof.
  intros Hne Hwf.
  assert (H0 : Forall (fun c => (0 < List.length c)%nat) route).
  { eapply Forall_impl; [|exact Hwf]. simpl. intros; lia. }
  assert (H1 : Forall (fun c => (1 < List.length c)%nat) route).
  { eapply Forall_impl; [|exact Hwf]. simpl. intros; lia. }
  assert (Hlng : longitudes route <> []).
  { unfold longitudes. destruct route; [congruence|discriminate]. }
  assert (Hlat : latitudes route <> []).
  { unfold latitudes. destruct route; [congruence|discriminate]. }
  destruct (Math_max_numbers _ Hlng) as (east & Ee & He).
  destruct (Math_max_numbers _ Hlat) as (north & En & Hn).
  destruct (Math_min_numbers _ Hlng) as (west & Ew & Hw).
  destruct (Math_min_numbers _ Hlat) as (south & Es & Hs).
  exists east, north, west, south.
  split; [|auto].
  unfold route_bounds.
  rewrite (entries_present 0 route H0), (entries_present 1 route H1).
  fold (longitudes route). fold (latitudes route).
  rewrite Ee, En, Ew, Es. reflexivity.
Qed.

(** On a non-empty route of well-formed coordinates the box is a proper
    one: its south-west corner is not east or north of its north-east
    corner. *)
Theorem route_bounds_ordered (route : list (list Q)) :
  route <> [] ->
  Forall (fun c => (2 <= List.length c)%nat) route ->
  exists east north west south : Q,
    route_bounds route
      = mkBounds (Finite east, Finite north) (Finite west, Finite south)
    /\ west <= east /\ south <= north.
Proof.
  intros Hne Hwf.
  destruct (bounds_of_route route Hne Hwf)
    as (east & north & west & south & Hb & He & Hn & Hw & Hs).
  exists east, north, west, south. split; [exact Hb|]. split.
  - apply He. apply Hw.
  - apply Hn. apply Hs.
Qed.

Lemma route_bounds_ordered_witness :
  exists east north west south : Q,
    route_bounds [[10; 20]; [30; 5]]
      = mkBounds (Finite east, Finite north) (Finite west, Finite south)
    /\ west <= east /\ south <= north.
Proof.
  apply (route_bounds_ordered [[10; 20]; [30; 5]]).
  - discriminate.
  - repeat constructor.
Defined.

Lemma maximum_of_permuted (m m' : Q) (l l' : list Q) :
  Permutation l l' -> maximum_of m l -> maximum_of m' l' -> m == m'.
Proof.
  intros Hp [Hin Hub] [Hin' Hub'].
  apply Qle_antisym.
  - apply Hub'. apply (Permutation_in _ Hp). exact Hin.
  - apply Hub. apply (Permutation_in _ (Permutation_sym Hp)). exact Hin'.
Qed.

Lemma minimum_of_permuted (m m' : Q) (l l' : list Q) :
  Permutation l l' -> minimum_of m l -> minimum_of m' l' -> m == m'.
Proof.
  intros Hp [Hin Hlb] [Hin' Hlb'].
  apply Qle_antisym.
  - apply Hlb. apply (Permutation_in _ (Permutation_sym Hp)). exact Hin'.
  - apply Hlb'. apply (Permutation_in _ Hp). exact Hin.
Qed.

(** The box does not depend on the order in which the route lists its
    coordinates: two routes with the same coordinates in a different order
    get corners of equal value. *)
Theorem route_bounds_permuted (route route' : list (list Q)) :
  Permutation route route' ->
  route <> [] ->
  Forall (fun c => (2 <= List.length c)%nat) route ->
  exists east north west south east' north' west' south' : Q,
    route_bounds route
      = mkBounds (Finite east, Finite north) (Finite west, Finite south)
    /\ route_bounds route'
       = mkBounds (Finite east', Finite north') (Finite west', Finite south')
    /\ east == east' /\ north == north'
    /\ west == west' /\ south == south'.
Proof.
  intros Hp Hne Hwf.
  assert (Hne' : route' <> []).
  { intro E. subst route'. apply Permutation_sym, Permutation_nil in Hp.
    contradiction. }
  assert (Hwf' : Forall (fun c => (2 <= List.length c)%nat) route').
  { eapply Permutation_Forall; eassumption. }
  destruct (bounds_of_route route Hne Hwf)
    as (e & n & w & s & Hb & He & Hn & Hw & Hs).
  destruct (bounds_of_route route' Hne' Hwf')
    as (e' & n' & w' & s' & Hb' & He' & Hn' & Hw' & Hs').
  assert (Plng : Permutation (longitudes route) (longitudes route'))
    by (apply Permutation_map; exact Hp).
  assert (Plat : Permutation (latitudes route) (latitudes route'))
    by (apply Permutation_map; exact Hp).
  exists e, n, w, s, e', n', w', s'.
  split; [exact Hb|]. split; [exact Hb'|].
  split; [exact (maximum_of_permuted _ _ _ _ Plng He He')|].
  split; [exact (maximum_of_permuted _ _ _ _ Plat Hn Hn')|].
  split; [exact (minimum_of_permuted _ _ _ _ Plng Hw Hw')|].
  exact (minimum_of_permuted _ _ _ _ Plat Hs Hs').
Qed.

Lemma route_bounds_permuted_witness :
  exists east north west south east' north' west' south' : Q,
    route_bounds [[10; 20]; [30; 5]]
      = mkBounds (Finite east, Finite north) (Finite west, Finite south)
    /\ route_bounds [[30; 5]; [10; 20]]
       = mkBounds (Finite east', Finite north') (Finite west', Finite south')
    /\ east == east' /\ north == north'
    /\ west == west' /\ south == south'.
Proof.
  apply (route_bounds_permuted [[10; 20]; [30; 5]] [[30; 5]; [10; 20]]).
  - apply perm_swap.
  - discriminate.
  - repeat constructor.
Defined.

End BoxFacts.

(** ** The stops of the route and the request built from them *)

Module StopsFacts.
Import Place LiveOrderRoute Behaviour RouteFacts.

Lemma ends_and_middle {A} (l : list A) :
  (2 <= List.length l)%nat ->
  nth_error l 0 :: map Some (removelast (tl l))
    ++ [nth_error l (List.length l - 1)]
  = map Some l.
Proof.
  destruct l as [|x t]; cbn [List.length]; [lia|]. intro H.
  assert (Ht : t <> []) by (destruct t; [cbn in H; lia|discriminate]).
  destruct (exists_last Ht) as (t' & y & ->).
  cbn [tl nth_error map]. rewrite removelast_last.
  replace (S (List.length (t' ++ [y])) - 1)%nat with (S (List.length t'))
    by (rewrite length_app; cbn; lia).
  cbn [nth_error]. rewrite nth_error_app2 by lia.
  rewrite Nat.sub_diag. cbn [nth_error].
  rewrite map_app. reflexivity.
Qed.

Section Stops.

Variable getCoordinates : ref -> Q * Q.
Variable own_coordinate : obj -> option Coords.
Variable Number_toString : Q -> string.

Lemma middle_spread (p : Props) :
  map spread_of (middleWaypoints getCoordinates own_coordinate p)
  = if focusCurrentDestination p
    then []
    else removelast (tl (waypoints (order p))).
Proof.
  unfold middleWaypoints. destruct (focusCurrentDestination p);
    [reflexivity|].
  rewrite map_map. cbn [decorate spread_of]. rewrite map_id.
  apply slice_middle.
Qed.

(** Without pickup and dropoff, and with at least two waypoints of which
    the last is not the first, the start waypoint, the middle waypoints
    and the end waypoint are the waypoint list, each waypoint once and in
    order. *)
Theorem route_visits_every_waypoint (p : Props) :
  focusCurrentDestination p = false ->
  pickup (order p) = None ->
  dropoff (order p) = None ->
  (2 <= List.length (waypoints (order p)))%nat ->
  last (waypoints (order p)) <> first (waypoints (order p)) ->
  startWaypoint (order p)
    :: map (fun m => Some (spread_of m))
           (middleWaypoints getCoordinates own_coordinate p)
    ++ [endWaypoint (order p)]
  = map Some (waypoints (order p)).
Proof.
  intros Hf Hp Hd Hlen Hneq.
  assert (Hne : (0 <? List.length (waypoints (order p)))%nat = true)
    by (apply Nat.ltb_lt; lia).
  unfold startWaypoint, endWaypoint. rewrite Hp, Hd, Hne.
  apply strict_neq_true in Hneq. rewrite Hneq. cbn [is_missing andb].
  rewrite <- (map_map spread_of Some), middle_spread, Hf.
  unfold last. apply ends_and_middle. exact Hlen.
Qed.

(** The directions request holds two coordinates when the current
    destination is focused, and otherwise as many as there are waypoints,
    but at least two, whether or not the order has a pickup and a
    dropoff. *)
Theorem request_size (p : Props) (origin destination : Coords) :
  List.length
    (coordinate_parts Number_toString origin destination
       (middleWaypoints getCoordinates own_coordinate p))
  = if focusCurrentDestination p
    then 2%nat
    else Nat.max 2 (List.length (waypoints (order p))).
Proof.
  unfold coordinate_parts. cbn [app List.length].
  rewrite length_app, length_map. cbn [List.length].
  rewrite <- (length_map spread_of), middle_spread.
  destruct (focusCurrentDestination p); [reflexivity|].
  rewrite removelast_tl_length. lia.
Qed.

End Stops.

Lemma route_visits_every_waypoint_witness :
  let p :=
    mkProps (mkOrder None None [1; 2; 3; 4]%nat Place.IdUndefined None) None None
            50 50 50 50 true false in
  startWaypoint (order p)
    :: map (fun m => Some (spread_of m))
           (middleWaypoints (fun _ => (0, 0)) (fun _ => None) p)
    ++ [endWaypoint (order p)]
  = map Some (waypoints (order p)).
Proof.
  apply (route_visits_every_waypoint (fun _ => (0, 0)) (fun _ => None)
           (mkProps (mkOrder None None [1; 2; 3; 4]%nat Place.IdUndefined None) None None
                    50 50 50 50 true false)).
  - reflexivity.
  - reflexivity.
  - reflexivity.
  - simpl. lia.
  - discriminate.
Defined.

Section Destination.

Variable newPlace : ref -> obj.
Variable id_of : obj -> id_value.

(** The current destination is built from one of the order's locations:
    the first, in the order pickup, waypoints, dropoff, whose id is the
    current waypoint, or the first location when no id matches; it is
    built from nothing only when the order has no location at all. *)
Theorem currentDestination_choice (o : Order) :
  exists d : ref,
    currentDestination newPlace id_of o = Some (newPlace d)
    /\ (d = None <-> locations o = [])
    /\ (forall x, d = Some x -> In x (locations o))
    /\ (forall x, In x (locations o) ->
          same_id id_of (current_waypoint o) x = true ->
          exists y, d = Some y
                    /\ same_id id_of (current_waypoint o) y = true)
    /\ ((forall x, In x (locations o) ->
           same_id id_of (current_waypoint o) x = false) ->
        d = nth_error (locations o) 0).
Proof.
  unfold currentDestination. fold (locations o).
  change (find _ (locations o))
    with (find (same_id id_of (current_waypoint o)) (locations o)).
  destruct (find (same_id id_of (current_waypoint o)) (locations o))
    as [y|] eqn:F.
  - apply find_some in F. destruct F as [Hin Hid].
    exists (Some y). split; [reflexivity|].
    split.
    { split; [discriminate|]. intro E. rewrite E in Hin. destruct Hin. }
    split.
    { intros x Hx. injection Hx as <-. exact Hin. }
    split.
    { intros x _ _. exists y. split; [reflexivity|exact Hid]. }
    intro Hnone. rewrite (Hnone y Hin) in Hid. discriminate.
  - exists (nth_error (locations o) 0). split; [reflexivity|].
    split.
    { destruct (locations o); split; intro H; try reflexivity;
        discriminate. }
    split.
    { intros x Hx. apply nth_error_In in Hx. exact Hx. }
    split.
    { intros x Hin Hid. rewrite (find_none _ _ F x Hin) in Hid.
      discriminate. }
    intros _. reflexivity.
Qed.

End Destination.

Lemma currentDestination_choice_witness :
  let o := mkOrder (Some 1%nat) (Some 4%nat) [2; 3]%nat
                   (IdString "b") None in
  let id_of (x : obj) :=
    if (x =? 3)%nat then IdString "b" else IdUndefined in
  exists y,
    currentDestination (fun r => match r with Some x => x | None => 0%nat end)
      id_of o = Some y
    /\ same_id id_of (current_waypoint o) y = true.
Proof.
  cbv zeta.
  destruct (currentDestination_choice
              (fun r => match r with Some x => x | None => 0%nat end)
              (fun x => if (x =? 3)%nat then IdString "b"
                        else IdUndefined)
              (mkOrder (Some 1%nat) (Some 4%nat) [2; 3]%nat
                       (IdString "b") None))
    as (d & Hd & _ & _ & Hmatch & _).
  destruct (Hmatch 3%nat) as (y & Hy & Hid).
  - cbn. auto.
  - reflexivity.
  - exists y. rewrite Hd, Hy. split; [reflexivity|exact Hid].
Defined.

End StopsFacts.

(** ** The effect that fetches the route *)

Module EffectFacts.
Import Place LiveOrderRoute Statements Behaviour.
Local Open Scope string_scope.

Section Effect.

Variable restoreFleetbasePlace : ref -> ref.
Variable getCoordinates : ref -> Q * Q.
Variable getDriverLocationAsPlace : ref.
Variable newPlace : ref -> obj.
Variable id_of : obj -> id_value.
Variable own_coordinate : obj -> option Coords.
Variable Number_toString : Q -> string.
Variable MAPBOX_ACCESS_TOKEN : string.
Variable fetch : string -> Js.completion Response.
Variable coerced_gt_zero : Js.value -> Js.completion bool.

Local Abbreviation fetchDirections' :=
  (fetchDirections Number_toString MAPBOX_ACCESS_TOKEN fetch coerced_gt_zero).
Local Abbreviation url' :=
  (directions_url Number_toString MAPBOX_ACCESS_TOKEN).
Local Abbreviation effect' :=
  (directions_effect restoreFleetbasePlace getCoordinates
     getDriverLocationAsPlace newPlace id_of own_coordinate Number_toString
     MAPBOX_ACCESS_TOKEN fetch coerced_gt_zero).
Local Abbreviation origin' :=
  (origin restoreFleetbasePlace getCoordinates getDriverLocationAsPlace).
Local Abbreviation destination' :=
  (destination restoreFleetbasePlace getCoordinates newPlace id_of).
Local Abbreviation middle' :=
  (middleWaypoints getCoordinates own_coordinate).

(** On the outcomes listed in [returns_null] the promise is fulfilled with
    [null]. *)
Lemma null_outcome (o d : Coords) (ws : list MiddleWaypoint) :
  returns_null (fetch (url' o d ws)) ->
  fetchDirections' o d ws = Js.Normal Js.Null.
Proof.
  intro Hnull. unfold fetchDirections.
  inversion Hnull as
    [ e Hout
    | response e Hjson Hout
    | response Hjson Hout
    | outcome Hr Hout
    | outcome Hr Hout
    | outcome Hr Hout
    | outcome rest Hr Hout ];
    try (unfold fetchDirections_try; rewrite <- Hout; cbn [Js.bind];
         try rewrite Hjson; reflexivity);
    inversion Hr as [response data routes Hjson Hroutes Ho Hrs];
    rewrite (FetchFacts.try_on_routes _ _ _ _ _ Hjson Hroutes _ (eq_sym Ho));
    reflexivity.
Qed.

(** A parsed body that is a boolean, a number, a string or an array has no
    routes: [fetchDirections] returns [null] on it. *)
Theorem fetchDirections_plain_body (o d : Coords) (ws : list MiddleWaypoint)
    (response : Response) (data : Js.value) :
  fetch (url' o d ws) = Js.Normal response ->
  json response = Js.Normal data ->
  plain_body data = true ->
  fetchDirections' o d ws = Js.Normal Js.Null.
Proof.
  intros Hfetch Hjson Hplain. apply null_outcome.
  apply routes_absent. rewrite Hfetch.
  apply routes_parsed with (data := data); [exact Hjson|].
  destruct data as [| |b|n|s|elems|fields]; try discriminate Hplain;
    reflexivity.
Qed.

(** The effect does not fetch exactly when the latitude of the origin or
    of the destination is zero; when it fetches, the promise is fulfilled,
    so the [then] callback, which has no rejection handler beside it,
    always runs. *)
Theorem directions_effect_settles (p : Props) :
  (effect' p = None
   <-> (latitude (origin' p) == 0 \/ latitude (destination' p) == 0))
  /\ (effect' p <> None ->
      exists v : Js.value, effect' p = Some (Js.Normal v)).
Proof.
  unfold directions_effect. split.
  - destruct (Qeq_bool (latitude (origin' p)) 0) eqn:Eo;
      destruct (Qeq_bool (latitude (destination' p)) 0) eqn:Ed;
      cbn [negb andb]; split; intro H;
      try reflexivity; try discriminate;
      try (left; apply Qeq_bool_iff; exact Eo);
      try (right; apply Qeq_bool_iff; exact Ed).
    destruct H as [H|H]; apply Qeq_bool_iff in H; congruence.
  - destruct (negb (Qeq_bool (latitude (origin' p)) 0)
              && negb (Qeq_bool (latitude (destination' p)) 0));
      [|congruence].
    intros _.
    destruct (FetchFacts.fetchDirections_fulfilled Number_toString
                MAPBOX_ACCESS_TOKEN fetch coerced_gt_zero
                (origin' p) (destination' p) (middle' p)) as [v Hv].
    exists v. rewrite Hv. reflexivity.
Qed.

(** The route on the map is replaced by a truthy geometry or left as it
    is: it is never cleared.  When the request ends in one of the ways
    that give [null], and when the effect does not fetch at all, the route
    drawn before stays. *)
Theorem route_never_cleared (p : Props) (routeGeometry : Js.value) :
  (after_directions_effect (effect' p) routeGeometry = routeGeometry
   \/ Js.truthy (after_directions_effect (effect' p) routeGeometry) = true)
  /\ (returns_null
        (fetch (url' (origin' p) (destination' p) (middle' p))) ->
      after_directions_effect (effect' p) routeGeometry = routeGeometry).
Proof.
  unfold after_directions_effect, directions_effect. split.
  - destruct (negb (Qeq_bool (latitude (origin' p)) 0)
              && negb (Qeq_bool (latitude (destination' p)) 0));
      [|left; reflexivity].
    unfold then_setRouteGeometry.
    destruct (fetchDirections' (origin' p) (destination' p) (middle' p))
      as [g|e]; [|left; reflexivity].
    destruct (Js.truthy g) eqn:T; [right; exact T|left; reflexivity].
  - intro Hnull.
    destruct (negb (Qeq_bool (latitude (origin' p)) 0)
              && negb (Qeq_bool (latitude (destination' p)) 0));
      [|reflexivity].
    rewrite (null_outcome _ _ _ Hnull). reflexivity.
Qed.

End Effect.

Lemma fetchDirections_plain_body_witness :
  fetchDirections (fun _ => "0") "token"
    (fun _ => Js.Normal (mkResponse (Js.Normal (Js.Str "Not Found"))))
    (fun _ => Js.Normal false)
    (mkCoords 1 2) (mkCoords 3 4) []
  = Js.Normal Js.Null.
Proof.
  apply (fetchDirections_plain_body (fun _ => "0") "token"
           (fun _ => Js.Normal (mkResponse (Js.Normal (Js.Str "Not Found"))))
           (fun _ => Js.Normal false)
           (mkCoords 1 2) (mkCoords 3 4) []
           (mkResponse (Js.Normal (Js.Str "Not Found")))
           (Js.Str "Not Found"));
    reflexivity.
Defined.

Lemma directions_effect_settles_witness :
  exists v : Js.value,
    directions_effect (fun r => r) (fun _ => (48, 2)) None
      (fun _ => 0%nat) (fun _ => IdUndefined) (fun _ => None)
      (fun _ => "0") "token"
      (fun _ => Js.Throw Js.FetchRejected) (fun _ => Js.Normal false)
      (mkProps (mkOrder (Some 1%nat) (Some 2%nat) [] Place.IdUndefined None) None None
               50 50 50 50 true false)
    = Some (Js.Normal v).
Proof.
  apply (directions_effect_settles (fun r => r) (fun _ => (48, 2)) None
           (fun _ => 0%nat) (fun _ => IdUndefined) (fun _ => None)
           (fun _ => "0") "token"
           (fun _ => Js.Throw Js.FetchRejected) (fun _ => Js.Normal false)
           (mkProps (mkOrder (Some 1%nat) (Some 2%nat) [] Place.IdUndefined None) None None
                    50 50 50 50 true false)).
  discriminate.
Defined.

Lemma route_never_cleared_witness :
  after_directions_effect
    (directions_effect (fun r => r) (fun _ => (48, 2)) None
       (fun _ => 0%nat) (fun _ => IdUndefined) (fun _ => None)
       (fun _ => "0") "token"
       (fun _ => Js.Throw Js.FetchRejected) (fun _ => Js.Normal false)
       (mkProps (mkOrder (Some 1%nat) (Some 2%nat) [] Place.IdUndefined None) None None
                50 50 50 50 true false))
    (Js.Str "route")
  = Js.Str "route".
Proof.
  apply (route_never_cleared (fun r => r) (fun _ => (48, 2)) None
           (fun _ => 0%nat) (fun _ => IdUndefined) (fun _ => None)
           (fun _ => "0") "token"
           (fun _ => Js.Throw Js.FetchRejected) (fun _ => Js.Normal false)
           (mkProps (mkOrder (Some 1%nat) (Some 2%nat) [] Place.IdUndefined None) None None
                    50 50 50 50 true false)
           (Js.Str "route")).
  apply fetch_fails.
Defined.

End EffectFacts.

(** ** The coordinate-editing screen over whole runs *)

Module ScreenFacts.
Import Place EditLocationCoordScreen Statements Behaviour.
Local Open Scope string_scope.

Section Screen.

Variable restoreFleetbasePlace : ref -> ref.
Variable getCoordinates : ref -> Q * Q.
Variable params_place : ref.
Variable place_isNew : bool.
Variable redirectTo : string.

Local Abbreviation original :=
  (original restoreFleetbasePlace getCoordinates params_place).
Local Abbreviation run' :=
  (run restoreFleetbasePlace getCoordinates params_place).
Local Abbreviation step' :=
  (step restoreFleetbasePlace getCoordinates params_place).
Local Abbreviation initial' :=
  (initial restoreFleetbasePlace getCoordinates params_place).
Local Abbreviation handleSave' := (handleSave place_isNew redirectTo).

Lemma reset_timer (cam : bool) (st : State) :
  fst (handleReset restoreFleetbasePlace getCoordinates params_place cam st)
  = mkState (centerCoordinate st) true (timers st ++ [original])%list.
Proof.
  unfold handleReset, Statements.original.
  destruct (getCoordinates (place restoreFleetbasePlace params_place)).
  reflexivity.
Qed.

Lemma idle_coordinates_cons (e : Event) (events : list Event) :
  idle_coordinates (e :: events)
  = (idle_coordinates [e] ++ idle_coordinates events)%list.
Proof.
  unfold idle_coordinates. cbn [flat_map]. now rewrite app_nil_r.
Qed.

(** Where the picked coordinate of a run can come from. *)
Lemma run_provenance (events : list Event) : forall st : State,
  In (centerCoordinate (run' st events))
     (centerCoordinate st :: original
        :: (timers st ++ idle_coordinates events)%list).
Proof.
  induction events as [|e events IH]; intro st.
  - left. reflexivity.
  - change (run' st (e :: events)) with (run' (step' st e) events).
    specialize (IH (step' st e)).
    remember (centerCoordinate (run' (step' st e) events)) as c eqn:Hc.
    clear Hc. rewrite idle_coordinates_cons.
    remember (idle_coordinates events) as later eqn:Hl. clear Hl.
    cbn [In] in *. rewrite !in_app_iff in *.
    destruct e as [| |f|f|cam|]; cbn [step] in IH.
    + cbn in IH |- *. tauto.
    + cbn in IH |- *. tauto.
    + unfold handleRegionChange in IH.
      destruct (properties f) as [pr|]; [|cbn in IH |- *; tauto].
      destruct (isUserInteraction pr); cbn in IH |- *; tauto.
    + unfold handleRegionChangeComplete in IH.
      unfold idle_coordinates. cbn [flat_map].
      destruct (geometry f) as [g|]; [|cbn in IH |- *; tauto].
      destruct (coordinates g) as [c'|]; cbn in IH |- *; tauto.
    + rewrite reset_timer in IH. cbn [centerCoordinate timers] in IH.
      rewrite in_app_iff in IH. cbn in IH |- *. tauto.
    + destruct (timers st) as [|t rest] eqn:E;
        unfold timer_fired in IH; rewrite E in IH; cbn in IH |- *;
        rewrite ?E in IH; cbn in IH; tauto.
Qed.

(** Whatever happens on the screen, the picked coordinate is the stored
    coordinate of the place or the coordinates some idle event of the run
    carried: nothing else is ever picked, and so nothing else saved. *)
Theorem picked_from_events (events : list Event) :
  In (centerCoordinate (run' initial' events))
     (original :: idle_coordinates events).
Proof.
  pose proof (run_provenance events initial') as H.
  assert (Hc : centerCoordinate initial' = original).
  { unfold initial, Statements.original.
    destruct (getCoordinates (place restoreFleetbasePlace params_place)).
    reflexivity. }
  assert (Ht : timers initial' = []).
  { unfold initial.
    destruct (getCoordinates (place restoreFleetbasePlace params_place)).
    reflexivity. }
  rewrite Hc, Ht in H. cbn [app In] in *. tauto.
Qed.

Lemma handleSave_reads_centre (out : SaveOutcome) (st st' : State) :
  centerCoordinate st = centerCoordinate st' ->
  handleSave' out st = handleSave' out st'.
Proof.
  intro H. unfold handleSave. rewrite H. reflexivity.
Qed.

Lemma gesture_keeps_centre (e : Event) (st : State) :
  is_gesture e = true ->
  centerCoordinate (step' st e) = centerCoordinate st.
Proof.
  destruct e as [| |f|f|cam|]; try discriminate; intros _; cbn [step].
  - reflexivity.
  - reflexivity.
  - unfold handleRegionChange.
    destruct (properties f) as [pr|]; [|reflexivity].
    destruct (isUserInteraction pr); reflexivity.
Qed.

(** Touching the map and moving the camera do not change the picked
    coordinate until the map reports idle: saving during a gesture stores
    what was picked before it. *)
Theorem gestures_keep_picked (events : list Event) (out : SaveOutcome) :
  forall st : State,
  forallb is_gesture events = true ->
  centerCoordinate (run' st events) = centerCoordinate st
  /\ handleSave' out (run' st events) = handleSave' out st.
Proof.
  induction events as [|e events IH]; intros st H.
  - split; reflexivity.
  - cbn [forallb] in H. apply andb_prop in H. destruct H as [He Hes].
    cbn [run fold_left]. destruct (IH (step' st e) Hes) as [Hc Hs].
    split.
    + etransitivity; [exact Hc|]. apply gesture_keeps_centre. exact He.
    + etransitivity; [exact Hs|]. apply handleSave_reads_centre.
      apply gesture_keeps_centre. exact He.
Qed.

(** A new place is saved by [setAttribute] and an existing one never is;
    [update] is called for every existing place, and for a new place only
    when [setAttribute] or the redirect has thrown. *)
Theorem save_calls (out : SaveOutcome) (st : State) :
  existsb is_setAttribute (handleSave' out st) = place_isNew
  /\ existsb is_update (handleSave' out st)
     = negb place_isNew || setAttribute_throws out || redirect_throws out.
Proof.
  unfold handleSave, save_new, save_update, handleRedirect.
  destruct (centerCoordinate st) as [lng lat].
  destruct place_isNew, out as [[|] [|] [|] [|] [|]];
    destruct (String.eqb redirectTo "AddressBook"); split; reflexivity.
Qed.

(** [handleSave] shows an error exactly when one of the calls it made has
    failed: for a new place [setAttribute] or the redirect of the first
    [try] block, for an existing place [update], [updateLocationState] or
    the redirect after them.  When it shows none, its last call is the
    navigation reset. *)
Theorem save_reports_failures (out : SaveOutcome) (st : State) :
  existsb is_toast (handleSave' out st)
  = (if place_isNew
     then setAttribute_throws out || redirect_throws out
     else update_rejects out || updateLocationState_throws out
          || redirect_after_update_throws out)
  /\ (existsb is_toast (handleSave' out st) = false ->
      List.last (handleSave' out st) LogError = handleRedirect redirectTo).
Proof.
  unfold handleSave, save_new, save_update, handleRedirect.
  destruct (centerCoordinate st) as [lng lat].
  destruct place_isNew, out as [[|] [|] [|] [|] [|]];
    destruct (String.eqb redirectTo "AddressBook"); cbn;
    (split; [reflexivity|intro H; try reflexivity; discriminate]).
Qed.

End Screen.

Lemma gestures_keep_picked_witness :
  let st := mkState (2, 48) false [] in
  let events :=
    [TouchStart; CameraChanged (mkFeature (Some (mkProperties true)) None);
     TouchEnd] in
  centerCoordinate (run (fun r => r) (fun _ => (48, 2)) None st events)
    = (2, 48)
  /\ handleSave false "Home" (mkSaveOutcome false false false false false)
       (run (fun r => r) (fun _ => (48, 2)) None st events)
     = handleSave false "Home" (mkSaveOutcome false false false false false) st.
Proof.
  apply (gestures_keep_picked (fun r => r) (fun _ => (48, 2)) None false
           "Home"
           [TouchStart;
            CameraChanged (mkFeature (Some (mkProperties true)) None);
            TouchEnd]
           (mkSaveOutcome false false false false false)
           (mkState (2, 48) false [])).
  reflexivity.
Defined.

Lemma save_reports_failures_witness :
  List.last
    (handleSave true "AddressBook" (mkSaveOutcome false false true false false)
       (mkState (2, 48) false []))
    LogError
  = NavigationReset 2 ["Profile"; "AddressBook"; "EditLocation"].
Proof.
  apply (proj2 (save_reports_failures true "AddressBook"
                  (mkSaveOutcome false false true false false)
                  (mkState (2, 48) false []))).
  reflexivity.
Defined.

End ScreenFacts.

(** ** The camera of PlaceMapView *)

Module PlaceCameraFacts.
Import Place PlaceMapView.

(** Once the camera ref is set, the effect moves the camera to the centre
    the [Camera] element was given, at zoom level 16 and over 500 ms,
    whatever the [zoom] prop; the element itself asks for 14 when the prop
    is left to its default.  Without the ref the effect does nothing. *)
Theorem camera_effect_overrides_zoom
    (restoreFleetbasePlace : ref -> ref) (getCoordinates : ref -> Q * Q)
    (place : ref) (zoom : option Q) :
  camera_effect restoreFleetbasePlace getCoordinates place false = None
  /\ (exists stop : CameraStop,
        camera_effect restoreFleetbasePlace getCoordinates place true
          = Some stop
        /\ stop_centerCoordinate stop
           = centerCoordinate
               (camera restoreFleetbasePlace getCoordinates place zoom)
        /\ stop_zoomLevel stop = 16
        /\ stop_animationDuration stop = 500)
  /\ zoomLevel (camera restoreFleetbasePlace getCoordinates place None) == 14.
Proof.
  unfold camera_effect, camera.
  destruct (getCoordinates (restoreFleetbasePlace place)) as [lat lng].
  split; [reflexivity|]. split.
  - eexists. split; [reflexivity|]. repeat split.
  - reflexivity.
Qed.

End PlaceCameraFacts.
